(** * CLI-Contactbook: the validated fields, the record and the address book

    A shallow embedding of [addressbook.py].  Python strings are lists of
    code points, exceptions are values of [exn], and every method that can
    mutate an object is a computation in a state-and-exception monad in
    which the state survives a raised exception, as it does in Python. *)

From Stdlib Require Import ZArith NArith List String Ascii Bool Lia Arith.
Import ListNotations.

Set Implicit Arguments.

(** ** Strings *)

Definition char := N.
Definition str := list char.

(** An ASCII literal as a Python string. *)
Definition lit (s : string) : str := map N_of_ascii (list_ascii_of_string s).

Definition in_range (lo hi c : N) : bool := (N.leb lo c && N.leb c hi)%bool.

Definition str_eqb (a b : str) : bool :=
  if list_eq_dec N.eq_dec a b then true else false.

(** [a in b] on strings: [a] occurs in [b] as a contiguous block. *)
Fixpoint starts_with (a b : str) : bool :=
  match a, b with
  | [], _ => true
  | x :: a', y :: b' => (N.eqb x y && starts_with a' b')%bool
  | _ :: _, [] => false
  end.

Fixpoint str_in (a b : str) : bool :=
  (starts_with a b ||
   match b with
   | [] => false
   | _ :: b' => str_in a b'
   end)%bool.

(** [sep.join(parts)] *)
Fixpoint join (sep : str) (parts : list str) : str :=
  match parts with
  | [] => []
  | [p] => p
  | p :: rest => p ++ sep ++ join sep rest
  end.

(** ** What the interpreter's tables decide

    The Unicode database and the C library are not part of the program.
    On ASCII everything below is fixed; beyond ASCII the tables are the
    fields of this class. *)
Class Interp := {
  (** the decimal value of a code point above 127 of category Nd *)
  uni_decimal : char -> option Z;
  (** [str.isspace] on a code point above 127 *)
  uni_space : char -> bool;
  (** [str.lower] on a string that has a code point above 127 *)
  uni_lower : str -> str;
  (** what [%Y] prints for a year below 1000 *)
  strftime_Y_short : Z -> str
}.

(** An interpreter that knows no digit, space or case beyond ASCII, and
    pads short years with zeros; used to run the examples. *)
Definition pad_year (y : Z) : str :=
  map (fun k => N.add 48 (Z.to_N (Z.modulo (Z.div y k) 10))) [1000; 100; 10; 1]%Z.

#[global] Instance ascii_interp : Interp := {|
  uni_decimal := fun _ => None;
  uni_space := fun _ => false;
  uni_lower := fun s => s;
  strftime_Y_short := pad_year
|}.

Section Text.
Context {I : Interp}.

Definition decimal_value (c : char) : option Z :=
  if N.ltb c 128
  then if in_range 48 57 c then Some (Z.of_N c - 48)%Z else None
  else uni_decimal c.

(** [\d] *)
Definition is_digit (c : char) : bool :=
  match decimal_value c with Some _ => true | None => false end.

(** [\s], and what [str.strip] removes *)
Definition is_space (c : char) : bool :=
  if N.ltb c 128
  then (in_range 9 13 c || in_range 28 32 c)%bool
  else uni_space c.

Definition ascii_lower (c : char) : char :=
  if in_range 65 90 c then N.add c 32 else c.

(** [s.lower()] *)
Definition lower (s : str) : str :=
  if forallb (fun c => N.ltb c 128) s then map ascii_lower s else uni_lower s.

End Text.

(** ** Regular expressions, as [re.match] runs them

    [run] returns every rest of the subject that a match of the pattern can
    leave behind; [re.match] succeeds when there is one.  [len] is the
    length of the whole subject, so that [^] can tell the start. *)
Inductive regex :=
| Bol
| Eol
| Cls (p : char -> bool)
| Cat (a b : regex)
| Alt (a b : regex)
| Rep (a : regex) (lo : nat) (hi : option nat).

Fixpoint iter (step : str -> list str) (lo n : nat) (s : str) : list str :=
  match n with
  | O => match lo with O => [s] | S _ => [] end
  | S n' =>
      flat_map (iter step (pred lo) n') (step s)
      ++ match lo with O => [s] | S _ => [] end
  end.

Section Run.
Variable len : nat.

Fixpoint run (r : regex) (s : str) : list str :=
  match r with
  | Bol => if Nat.eqb (List.length s) len then [s] else []
  | Eol => match s with
           | [] => [s]
           | [c] => if N.eqb c 10 then [s] else []
           | _ => []
           end
  | Cls p => match s with
             | c :: s' => if p c then [s'] else []
             | [] => []
             end
  | Cat a b => flat_map (run b) (run a s)
  | Alt a b => run a s ++ run b s
  | Rep a lo hi =>
      iter (run a) lo (match hi with Some h => h | None => lo + List.length s end) s
  end.

End Run.

Definition re_match (r : regex) (s : str) : bool :=
  match run (List.length s) r s with
  | [] => false
  | _ :: _ => true
  end.

Definition chr (c : N) : regex := Cls (N.eqb c).
Definition opt (r : regex) : regex := Rep r 0 (Some 1).
Definition plus (r : regex) : regex := Rep r 1 None.

Section Patterns.
Context {I : Interp}.

(** [[A-Za-zА-Яа-яїЇєЄ]] *)
Definition name_letter (c : char) : bool :=
  (in_range 65 90 c || in_range 97 122 c
   || in_range 1040 1071 c || in_range 1072 1103 c
   || N.eqb c 1111 || N.eqb c 1031 || N.eqb c 1108 || N.eqb c 1028)%bool.

(** [^[A-Za-zА-Яа-яїЇєЄ]{2,25}$] *)
Definition name_value_pattern : regex :=
  Cat Bol (Cat (Rep (Cls name_letter) 2 (Some 25)) Eol).

(** [[\s-]] *)
Definition space_or_dash (c : char) : bool := (is_space c || N.eqb c 45)%bool.

(** [\d[\s-]?] *)
Definition phone_group : regex := Cat (Cls is_digit) (opt (Cls space_or_dash)).

(** [^\+(?:\d[\s-]?){9,14}\d$|\d{9,10}$] *)
Definition phone_pattern : regex :=
  Alt (Cat Bol (Cat (chr 43) (Cat (Rep phone_group 9 (Some 14))
                                  (Cat (Cls is_digit) Eol))))
      (Cat (Rep (Cls is_digit) 9 (Some 10)) Eol).

Definition ascii_alpha (c : char) : bool :=
  (in_range 65 90 c || in_range 97 122 c)%bool.
Definition ascii_alnum (c : char) : bool :=
  (ascii_alpha c || in_range 48 57 c)%bool.

(** [[a-zA-Z0-9._%+-]] *)
Definition email_local (c : char) : bool :=
  (ascii_alnum c || N.eqb c 46 || N.eqb c 95 || N.eqb c 37
   || N.eqb c 43 || N.eqb c 45)%bool.

(** [[a-zA-Z0-9.-]] *)
Definition email_domain (c : char) : bool :=
  (ascii_alnum c || N.eqb c 46 || N.eqb c 45)%bool.

(** [^[a-zA-Z0-9._%+-]+@[a-zA-Z0-9.-]+\.[a-zA-Z]{2,}$] *)
Definition email_pattern : regex :=
  Cat Bol (Cat (plus (Cls email_local))
          (Cat (chr 64)
          (Cat (plus (Cls email_domain))
          (Cat (chr 46)
          (Cat (Rep (Cls ascii_alpha) 2 None) Eol))))).

End Patterns.


(** ** Exceptions and computations *)

(** The messages the program and the library raise with. *)
Inductive message :=
| Name_is_not_valid
| Phone_number_is_not_valid
| Provided_email_is_not_valid
| Birthday_must_be_in_the_past
| Phone_already_exists (phone name : str)
| Phone_is_not_found (phone : str)
| Phone_does_not_exist (phone name : str)
| Record_already_exists
| Record_does_not_exist (name : str)
| invalid_literal_for_int (token : str)
| exceeds_the_limit_for_integer_string (digits : nat)
| not_enough_values_to_unpack (got : nat)
| too_many_values_to_unpack
| year_is_out_of_range
| month_must_be_in_1_12
| day_is_out_of_range_for_month.

Inductive exn :=
| ValueError (m : message)
| KeyError (m : message)
| AttributeError (attribute : string)
| TypeError
| OverflowError
| OSError
| UnpicklingError.

Inductive outcome (A : Type) :=
| Return (a : A)
| Raise (e : exn).
Arguments Raise {A} e.

Definition is_ValueError (e : exn) : bool :=
  match e with ValueError _ => true | _ => false end.

(** A computation on an object of type [S]: it returns or raises, and
    leaves the object in some state either way. *)
Definition M (S A : Type) := S -> outcome A * S.

Definition ret {S A} (a : A) : M S A := fun s => (Return a, s).
Definition raise {S A} (e : exn) : M S A := fun s => (Raise e, s).
Definition bind {S A B} (c : M S A) (k : A -> M S B) : M S B :=
  fun s => match c s with
           | (Return a, s') => k a s'
           | (Raise e, s') => (Raise e, s')
           end.
Definition get {S} : M S S := fun s => (Return s, s).
Definition put {S} (s : S) : M S unit := fun _ => (Return tt, s).
(** a computation that touches no object *)
Definition pure {S A} (o : outcome A) : M S A := fun s => (o, s).

Definition obind {A B} (o : outcome A) (k : A -> outcome B) : outcome B :=
  match o with
  | Return a => k a
  | Raise e => Raise e
  end.

Declare Scope py_scope.
Delimit Scope py_scope with py.
Notation "x <- c ;; k" := (bind c (fun x => k))
  (at level 61, c at next level, right associativity) : py_scope.
Notation "c ;; k" := (bind c (fun _ => k))
  (at level 61, right associativity) : py_scope.
Notation "'let*' x := c 'in' k" := (obind c (fun x => k))
  (at level 61, x pattern, c at next level, right associativity).

(** ** [datetime.date] *)

Record date := mkdate { year : Z; month : Z; day : Z }.

Local Open Scope Z_scope.

Definition MINYEAR := 1.
Definition MAXYEAR := 9999.

Definition is_leap (y : Z) : bool :=
  (y mod 4 =? 0) && (negb (y mod 100 =? 0) || (y mod 400 =? 0)).

Definition days_in_month (y m : Z) : Z :=
  if m =? 2 then (if is_leap y then 29 else 28)
  else if (m =? 4) || (m =? 6) || (m =? 9) || (m =? 11) then 30
  else 31.

Definition days_before_year (y : Z) : Z :=
  let p := y - 1 in p * 365 + p / 4 - p / 100 + p / 400.

Definition days_before_month (y m : Z) : Z :=
  nth (Z.to_nat m) [0; 0; 31; 59; 90; 120; 151; 181; 212; 243; 273; 304; 334] 0
  + (if (2 <? m) && is_leap y then 1 else 0).

Definition toordinal (d : date) : Z :=
  days_before_year (year d) + days_before_month (year d) (month d) + day d.

Definition fits_C_int (z : Z) : bool := (- 2 ^ 31 <=? z) && (z <? 2 ^ 31).

(** [date(year, month, day)] *)
Definition date_new (y m d : Z) : outcome date :=
  if negb (fits_C_int y && fits_C_int m && fits_C_int d) then Raise OverflowError
  else if negb ((MINYEAR <=? y) && (y <=? MAXYEAR)) then
    Raise (ValueError year_is_out_of_range)
  else if negb ((1 <=? m) && (m <=? 12)) then
    Raise (ValueError month_must_be_in_1_12)
  else if negb ((1 <=? d) && (d <=? days_in_month y m)) then
    Raise (ValueError day_is_out_of_range_for_month)
  else Return (mkdate y m d).

Definition valid_date (d : date) : bool :=
  (MINYEAR <=? year d) && (year d <=? MAXYEAR)
  && (1 <=? month d) && (month d <=? 12)
  && (1 <=? day d) && (day d <=? days_in_month (year d) (month d)).

(** [a < b] *)
Definition date_ltb (a b : date) : bool :=
  (year a <? year b)
  || ((year a =? year b)
      && ((month a <? month b)
          || ((month a =? month b) && (day a <? day b)))).

(** [a <= b] *)
Definition date_leb (a b : date) : bool := negb (date_ltb b a).

(** [d.replace(year=y)] and [d.replace(year=y, day=dd)] *)
Definition replace_year (d : date) (y : Z) : outcome date :=
  date_new y (month d) (day d).
Definition replace_year_day (d : date) (y dd : Z) : outcome date :=
  date_new y (month d) dd.

(** [(a - b).days] *)
Definition days_between (a b : date) : Z := toordinal a - toordinal b.

Definition digit_char (z : Z) : char := N.add 48 (Z.to_N (z mod 10)).
Definition two_digits (z : Z) : str := [digit_char (z / 10); digit_char z].

Section Library.
Context {I : Interp}.

(** [d.strftime("%d-%m-%Y")] *)
Definition strftime_dmY (d : date) : str :=
  two_digits (day d) ++ [45%N] ++ two_digits (month d) ++ [45%N]
  ++ (if 1000 <=? year d
      then map (fun k => digit_char (year d / k)) [1000; 100; 10; 1]
      else strftime_Y_short (year d)).

(** What [int] skips around a number: the white space of C in ASCII
    (tab to carriage return, and the space), and the Unicode spaces
    beyond ASCII.  The separators U+001C to U+001F are not skipped. *)
Definition int_space (c : char) : bool :=
  if N.ltb c 128 then in_range 9 13 c || N.eqb c 32 else uni_space c.

Fixpoint skip_spaces (s : str) : str :=
  match s with
  | c :: s' => if int_space c then skip_spaces s' else s
  | [] => []
  end.

(** The run of decimal digits and underscores at the head of a string:
    the number it writes after [acc], how many digits it has after
    [digits], and what follows it.  Two underscores in a row, or an
    underscore at the end of the run, are refused. *)
Fixpoint scan_digits (acc : Z) (digits : nat) (after_underscore : bool) (s : str)
  : option (Z * nat * str) :=
  match s with
  | [] => if after_underscore then None else Some (acc, digits, [])
  | c :: s' =>
      if N.eqb c 95 then
        if after_underscore then None else scan_digits acc digits true s'
      else
        match decimal_value c with
        | Some v => scan_digits (acc * 10 + v) (S digits) false s'
        | None => if after_underscore then None else Some (acc, digits, s)
        end
  end.

(** the default of [sys.int_max_str_digits] *)
Definition int_max_str_digits : nat := 4300.

(** [int(s)] on a string, base 10: spaces, a sign, a run of digits that
    does not start with an underscore, spaces.  The limit on the number
    of digits is checked once the run is read, before what follows it. *)
Definition int (s : str) : outcome Z :=
  let invalid := Raise (ValueError (invalid_literal_for_int s)) in
  let body := skip_spaces s in
  let '(sign, rest) :=
    match body with
    | c :: rest =>
        if N.eqb c 43 then (1, rest)
        else if N.eqb c 45 then (-1, rest)
        else (1, body)
    | [] => (1, body)
    end in
  if match rest with c :: _ => N.eqb c 95 | [] => false end then invalid
  else
    match scan_digits 0 0 false rest with
    | None => invalid
    | Some (v, digits, tail) =>
        if Nat.ltb int_max_str_digits digits then
          Raise (ValueError (exceeds_the_limit_for_integer_string digits))
        else if Nat.eqb digits 0 then invalid
        else match skip_spaces tail with
             | [] => Return (sign * v)
             | _ :: _ => invalid
             end
    end.

(** [re.split(p, s)] for a pattern that is one character class *)
Fixpoint split_on (p : char -> bool) (cur : str) (s : str) : list str :=
  match s with
  | [] => [rev cur]
  | c :: s' => if p c then rev cur :: split_on p [] s' else split_on p (c :: cur) s'
  end.
Definition re_split (p : char -> bool) (s : str) : list str := split_on p [] s.

(** [a, b, c = map(int, tokens)]: [map] is lazy, so each [int] runs when
    the unpacking asks for the next value, and a fourth token is converted
    before the unpacking complains of it. *)
Definition unpack3_ints (tokens : list str) : outcome (Z * Z * Z) :=
  match tokens with
  | [] => Raise (ValueError (not_enough_values_to_unpack 0))
  | t1 :: r1 =>
      let* a := int t1 in
      match r1 with
      | [] => Raise (ValueError (not_enough_values_to_unpack 1))
      | t2 :: r2 =>
          let* b := int t2 in
          match r2 with
          | [] => Raise (ValueError (not_enough_values_to_unpack 2))
          | t3 :: r3 =>
              let* c := int t3 in
              match r3 with
              | [] => Return (a, b, c)
              | t4 :: _ =>
                  let* _ := int t4 in
                  Raise (ValueError too_many_values_to_unpack)
              end
          end
      end
  end.

End Library.

(** ** The validated fields

    [_Field.__init__] runs the setter of the subclass on the new object; a
    setter that raises leaves no object behind.  Every setter assigns
    [_value] in its last statement, after everything that can raise. *)

Record field (T : Type) := Field { value : T }.

Section Fields.
Context {I : Interp}.
Variable today : date.

(** the body of a setter up to its assignment, and the assignment *)
Definition assign {T} (checked : outcome T) : M (field T) unit :=
  fun self =>
    match checked with
    | Return v => (Return tt, Field v)
    | Raise e => (Raise e, self)
    end.

Definition init {T} (checked : outcome T) : outcome (field T) :=
  let* v := checked in Return (Field v).

Definition _Name := field str.
Definition _Phone := field str.
Definition _Email := field str.
Definition _Birthday := field date.

Definition check_name (v : str) : outcome str :=
  if re_match name_value_pattern v then Return v
  else Raise (ValueError Name_is_not_valid).

Definition check_phone (v : str) : outcome str :=
  if negb (re_match phone_pattern v) then
    Raise (ValueError Phone_number_is_not_valid)
  else Return v.

Definition check_email (v : str) : outcome str :=
  if negb (re_match email_pattern v) then
    Raise (ValueError Provided_email_is_not_valid)
  else Return v.

(** [[-|_|\\|/]]: inside a class the bar is a character like the others *)
Definition birthday_separator (c : char) : bool :=
  N.eqb c 45 || N.eqb c 124 || N.eqb c 95 || N.eqb c 92 || N.eqb c 47.

Definition check_birthday (v : str) : outcome date :=
  let* (d, m, y) := unpack3_ints (re_split birthday_separator v) in
  let* birthday := date_new y m d in
  if date_leb today birthday then
    Raise (ValueError Birthday_must_be_in_the_past)
  else Return birthday.

Definition _Name_new (v : str) : outcome _Name := init (check_name v).
Definition _Phone_new (v : str) : outcome _Phone := init (check_phone v).
Definition _Email_new (v : str) : outcome _Email := init (check_email v).
Definition _Birthday_new (v : str) : outcome _Birthday := init (check_birthday v).

Definition _Phone_set_value (v : str) : M _Phone unit := assign (check_phone v).

(** [_Phone.__eq__] *)
Definition phone_eqb (a b : _Phone) : bool := str_eqb (value a) (value b).

(** [_Birthday.__str__] *)
Definition _Birthday_str (b : _Birthday) : str := strftime_dmY (value b).

(** ** The record *)

Record _Record := mkRecord {
  name : _Name;
  phones : list _Phone;
  birthday : option _Birthday;
  email : option _Email
}.

Definition _Record_new (n : str) : outcome _Record :=
  let* nm := _Name_new n in
  Return {| name := nm; phones := []; birthday := None; email := None |}.

Definition set_phones (ps : list _Phone) (r : _Record) : _Record :=
  {| name := name r; phones := ps; birthday := birthday r; email := email r |}.
Definition set_birthday_field (b : option _Birthday) (r : _Record) : _Record :=
  {| name := name r; phones := phones r; birthday := b; email := email r |}.
Definition set_email_field (e : option _Email) (r : _Record) : _Record :=
  {| name := name r; phones := phones r; birthday := birthday r; email := e |}.

(** [phone in self.phones] *)
Definition phone_in (p : _Phone) (ps : list _Phone) : bool :=
  existsb (fun q => phone_eqb q p) ps.

(** [self.phones.remove(phone)], for a phone that is in the list *)
Fixpoint list_remove (p : _Phone) (ps : list _Phone) : list _Phone :=
  match ps with
  | [] => []
  | q :: rest => if phone_eqb q p then rest else q :: list_remove p rest
  end.

Open Scope py_scope.

Definition add_phone (phone : str) : M _Record unit :=
  phone <- pure (_Phone_new phone) ;;
  self <- get ;;
  if negb (phone_in phone (phones self)) then
    put (set_phones (phones self ++ [phone]) self)
  else
    raise (ValueError (Phone_already_exists (value phone) (value (name self)))).

(** The loop of [change_phone] over the list of phone objects: the first
    one whose value is [old_phone] gets [new_phone] through its setter and
    the loop breaks; the [else] of the loop raises. *)
Fixpoint change_phone_loop (old_phone new_phone : str) : M (list _Phone) unit :=
  fun ps =>
    match ps with
    | [] => (Raise (KeyError (Phone_is_not_found old_phone)), [])
    | phone :: rest =>
        if str_eqb (value phone) old_phone then
          let '(o, phone') := _Phone_set_value new_phone phone in
          (o, phone' :: rest)
        else
          let '(o, rest') := change_phone_loop old_phone new_phone rest in
          (o, phone :: rest')
    end.

Definition change_phone (old_phone new_phone : str) : M _Record unit :=
  fun self =>
    let '(o, ps) := change_phone_loop old_phone new_phone (phones self) in
    (o, set_phones ps self).

Definition del_phone (phone : str) : M _Record unit :=
  phone <- pure (_Phone_new phone) ;;
  self <- get ;;
  if phone_in phone (phones self) then
    put (set_phones (list_remove phone (phones self)) self)
  else
    raise (KeyError (Phone_does_not_exist (value phone) (value (name self)))).

Definition set_birthday (birthday : str) : M _Record unit :=
  birthday <- pure (_Birthday_new birthday) ;;
  self <- get ;;
  put (set_birthday_field (Some birthday) self).

Definition del_birthday : M _Record unit :=
  self <- get ;; put (set_birthday_field None self).

Definition set_email (email : str) : M _Record unit :=
  email <- pure (_Email_new email) ;;
  self <- get ;;
  put (set_email_field (Some email) self).

Definition del_email : M _Record unit :=
  self <- get ;; put (set_email_field None self).

Close Scope py_scope.

(** [try: a except ValueError: b] *)
Definition try_except_ValueError {A} (a b : outcome A) : outcome A :=
  match a with
  | Raise e => if is_ValueError e then b else Raise e
  | Return x => Return x
  end.

Definition days_to_birthday (self : _Record) : outcome (option Z) :=
  match birthday self with
  | None => Return None
  | Some b =>
      let* birthday_this_year :=
        try_except_ValueError
          (replace_year (value b) (year today))
          (replace_year_day (value b) (year today) (day today - 1)) in
      let* birthday_this_year :=
        if date_ltb birthday_this_year today
        then replace_year (value b) (year today + 1)
        else Return birthday_this_year in
      Return (Some (days_between birthday_this_year today))
  end.

(** [_Record.__str__] *)
Definition _Record_str (self : _Record) : str :=
  let str_phones := join (lit " ") (map (@value _) (phones self)) in
  let str_email := match email self with Some e => value e | None => [] end in
  let str_birthday :=
    match birthday self with Some b => _Birthday_str b | None => [] end in
  join (lit " | ") [value (name self); str_email; str_phones; str_birthday].

End Fields.

(** ** The address book

    [self.data] is a Python [dict]: keys are unique and keep the order in
    which they were first inserted. *)

Definition dict := list (str * _Record).

Definition keys (d : dict) : list str := map fst d.
Definition values (d : dict) : list _Record := map snd d.

(** [k in d] *)
Definition contains (k : str) (d : dict) : bool :=
  existsb (fun kv => str_eqb (fst kv) k) d.

(** [d[k] = v]: a key that is there keeps its place *)
Fixpoint setitem (k : str) (v : _Record) (d : dict) : dict :=
  match d with
  | [] => [(k, v)]
  | (k', v') :: rest =>
      if str_eqb k' k then (k', v) :: rest else (k', v') :: setitem k v rest
  end.

(** [d.pop(k)], for a key that is there *)
Fixpoint pop (k : str) (d : dict) : dict :=
  match d with
  | [] => []
  | (k', v') :: rest => if str_eqb k' k then rest else (k', v') :: pop k rest
  end.

(** [d.update(other)] *)
Definition update (d other : dict) : dict :=
  fold_left (fun acc kv => setitem (fst kv) (snd kv) acc) other d.

(** [d[k]] *)
Fixpoint getitem (k : str) (d : dict) : option _Record :=
  match d with
  | [] => None
  | (k', v') :: rest => if str_eqb k' k then Some v' else getitem k rest
  end.

(** what every [dict] satisfies *)
Definition dict_wf (d : dict) : Prop := NoDup (keys d).

(** The values an attribute of a record can hold. *)
Inductive object :=
| NameObject (n : _Name)
| PhoneList (ps : list _Phone)
| BirthdayObject (b : _Birthday)
| EmailObject (e : _Email)
| NoneObject.

(** [record.<attribute>]: [_Record.__init__] creates four attributes and
    nothing in the program adds another. *)
Definition getattr (record : _Record) (attribute : string) : outcome object :=
  if String.eqb attribute "name" then Return (NameObject (name record))
  else if String.eqb attribute "phones" then Return (PhoneList (phones record))
  else if String.eqb attribute "birthday" then
    Return (match birthday record with
            | Some b => BirthdayObject b
            | None => NoneObject
            end)
  else if String.eqb attribute "email" then
    Return (match email record with
            | Some e => EmailObject e
            | None => NoneObject
            end)
  else Raise (AttributeError attribute).

(** [datetime.strptime(o, "%d %B %Y")] wants a [str]; no attribute of a
    record holds one. *)
Definition strptime (o : object) : outcome date := Raise TypeError.

Section AddressBook.
Context {I : Interp}.
Variable today : date.

Open Scope py_scope.

Definition add_record (name : str) : M dict unit :=
  data <- get ;;
  if negb (contains name data) then
    record <- pure (_Record_new name) ;;
    put (setitem name record data)
  else
    raise (KeyError Record_already_exists).

Definition del_record (name : str) : M dict unit :=
  data <- get ;;
  if contains name data then put (pop name data)
  else raise (KeyError (Record_does_not_exist name)).

Close Scope py_scope.

(** the lines [show_records] prints *)
Definition show_records (data : dict) : list str :=
  map _Record_str (values data).

Definition no_records : str := lit "No records".

Definition formatted_record (record : _Record) : str :=
  let str_phones :=
    match phones record with
    | [] => no_records
    | _ :: _ => join (lit ", ") (map (@value _) (phones record))
    end in
  let str_birthday :=
    match birthday record with
    | Some b => _Birthday_str b
    | None => no_records
    end in
  let str_email :=
    match email record with
    | Some e => value e
    | None => no_records
    end in
  [10%N] ++ lit " Name: " ++ value (name record) ++ [10%N]
  ++ lit " Phones: " ++ str_phones ++ [10%N]
  ++ lit " Birthday: " ++ str_birthday ++ [10%N]
  ++ lit " Email: " ++ str_email ++ [10%N].

(** the condition of the [if] in [search] *)
Definition search_hit (query : str) (record : _Record) : bool :=
  str_in (lower query) (lower (value (name record)))
  || existsb (fun phone => str_in query (value phone)) (phones record)
  || match birthday record with
     | Some b => str_in (lower query) (_Birthday_str b)
     | None => false
     end
  || match email record with
     | Some e => str_in (lower query) (lower (value e))
     | None => false
     end.

Definition search (query : str) (data : dict) : list str :=
  fold_left
    (fun results record =>
       if search_hit query record
       then results ++ [formatted_record record]
       else results)
    (values data) [].

(** The body of the loop of [contacts_with_days_to_bday] for one record:
    the line to append, if any.  The text of the line would print the
    objects [record.name] and [record.bday]; [print_object] stands for
    that. *)
Variable print_object : object -> str.

Definition bday_line (days : Z) (record : _Record) : outcome (option str) :=
  let* bday := getattr record "bday" in
  let* bd := strptime bday in
  let* current_year_birthday := date_new (year today) (month bd) (day bd) in
  let* current_year_birthday :=
    if date_ltb current_year_birthday today
    then date_new (year today + 1) (month bd) (day bd)
    else Return current_year_birthday in
  let delta := days_between current_year_birthday today in
  if delta =? days then
    let* n := getattr record "name" in
    let* b := getattr record "bday" in
    Return (Some (print_object n ++ lit ", " ++ print_object b))
  else Return None.

Fixpoint bday_loop (days : Z) (records : list _Record) (result : list str)
  : outcome (list str) :=
  match records with
  | [] => Return result
  | record :: rest =>
      let* line := bday_line days record in
      bday_loop days rest
        (match line with Some l => result ++ [l] | None => result end)
  end.

Definition contacts_with_days_to_bday (days : Z) (data : dict) : outcome str :=
  let* result := bday_loop days (values data) [] in
  Return (join [10%N] result).

End AddressBook.

(** ** Saving and loading

    [pickle] is a codec between the mapping and the bytes of a file; the
    file system is what the paths hold and which of them can be opened for
    writing. *)
Section Persistence.
Variable blob : Type.
Variable dumps : dict -> blob.
Variable loads : blob -> outcome dict.

Record world := mkWorld {
  files : str -> option blob;
  writable : str -> bool
}.

Definition write_file (filename : str) (b : blob) (w : world) : world :=
  {| files := fun p => if str_eqb p filename then Some b else files w p;
     writable := writable w |}.

Definition save_records_to_file (filename : str) (data : dict) : M world unit :=
  fun w =>
    if writable w filename
    then (Return tt, write_file filename (dumps data) w)
    else (Raise OSError, w).

(** [FileNotFoundError] is the one exception the method swallows. *)
Definition read_records_from_file (filename : str) (w : world) : M dict unit :=
  fun data =>
    match files w filename with
    | None => (Return tt, data)
    | Some b =>
        match loads b with
        | Return content => (Return tt, update data content)
        | Raise e => (Raise e, data)
        end
    end.

End Persistence.

(** ** Running a computation *)

Definition result_of {S A} (c : M S A) (s : S) : outcome A := fst (c s).
Definition state_after {S A} (c : M S A) (s : S) : S := snd (c s).

(** The day the examples are run on. *)
Definition a_day : date := mkdate 2026 11 3.

(** The record and the book of the examples. *)
Definition alexander : _Record :=
  {| name := Field (lit "Alexander"); phones := []; birthday := None; email := None |}.

Definition alexander_born : _Record :=
  set_birthday_field (Some (Field (mkdate 2022 9 30))) alexander.

Definition twenty_five_letters : str := lit "ABCDEFGHIJKLMNOPQRSTUVWXY".

(** ** The words of the specification, for comparison *)

(** "the four separator characters [-], [_], [\], [/]" *)
Definition four_separators (c : char) : bool :=
  N.eqb c 45 || N.eqb c 95 || N.eqb c 92 || N.eqb c 47.

(** "no two stored Phones have equal normalized string values" *)
Definition phones_distinct (r : _Record) : Prop :=
  NoDup (map (@value _) (phones r)).

(** "whenever an operation raises an error, the entire prior state is
    exactly as it was before the call" *)
Definition atomic {S A} (c : M S A) : Prop :=
  forall s e s', c s = (Raise e, s') -> s' = s.

(** The block of a record in the result of [search], as it is described:
    a line feed and four lines, each a space, a label, a colon and a
    space, a text and a line feed.  The texts are the name, the phones
    with a comma and a space between them, the birthday as day, month and
    year in two, two and four digits with dashes, and the email; where
    there is no phone, birthday or email the text is [No records]. *)
Fixpoint padded (width : nat) (z : Z) : str :=
  match width with
  | O => []
  | S w => padded w (z / 10) ++ [N.add 48 (Z.to_N (z mod 10))]
  end.

Definition comma_joined (texts : list str) : str :=
  match texts with
  | [] => []
  | t :: rest => t ++ List.concat (map (fun u => 44%N :: 32%N :: u) rest)
  end.

Definition labelled_line (label : string) (text : str) : str :=
  32%N :: lit label ++ 58%N :: 32%N :: text ++ [10%N].

Definition or_no_records (text : option str) : str :=
  match text with
  | Some t => t
  | None => lit "No records"
  end.

Section Blocks.
Context {I : Interp}.

Definition dd_mm_yyyy (d : date) : str :=
  padded 2 (day d) ++ 45%N :: padded 2 (month d) ++ 45%N
  :: (if 1000 <=? year d then padded 4 (year d) else strftime_Y_short (year d)).

Definition block_as_described (r : _Record) : str :=
  10%N
  :: labelled_line "Name" (value (name r))
  ++ labelled_line "Phones"
       (or_no_records
          (match phones r with
           | [] => None
           | _ :: _ => Some (comma_joined (map (@value _) (phones r)))
           end))
  ++ labelled_line "Birthday"
       (or_no_records (option_map (fun b => dd_mm_yyyy (value b)) (birthday r)))
  ++ labelled_line "Email" (or_no_records (option_map (@value _) (email r))).

End Blocks.

(** the record [_Record(name)] makes *)
Definition empty_record (n : str) : _Record :=
  {| name := Field n; phones := []; birthday := None; email := None |}.

(** "[add_record(name)] fails with DuplicateKey when name is already a key
    and otherwise stores a new empty Record under name" *)
Definition add_record_as_stated : Prop :=
  forall (n : str) (data : dict),
    if contains n data
    then add_record n data = (Raise (KeyError Record_already_exists), data)
    else getitem n (state_after (add_record n) data) = Some (empty_record n).

(** [steps step k s t]: [k] matches of the repeated pattern, one after the
    other, lead from the rest [s] to the rest [t]. *)
Fixpoint steps (step : str -> list str) (k : nat) (s t : str) : Prop :=
  match k with
  | O => t = s
  | S k' => exists u, In u (step s) /\ steps step k' u t
  end.

Section PhoneWords.
Context {I : Interp}.

(** "a bare 9-10 digit string" *)
Definition bare_phone (s : str) : Prop :=
  Forall (fun c => is_digit c = true) s /\ (9 <= List.length s <= 10)%nat.

(** a digit, alone or followed by one separator *)
Definition digit_group (sep : char -> bool) (g : str) : Prop :=
  exists d, is_digit d = true
            /\ (g = [d] \/ exists c, sep c = true /\ g = [d; c]).

(** a [+], then between [lo] and [hi] digits, each but the last of them
    followed or not by one separator *)
Definition plus_phone (sep : char -> bool) (lo hi : nat) (s : str) : Prop :=
  exists groups d,
    s = 43%N :: List.concat groups ++ [d]
    /\ Forall (digit_group sep) groups
    /\ is_digit d = true
    /\ (lo <= S (List.length groups) <= hi)%nat.

Definition space_or_dash_only (c : char) : bool := N.eqb c 32 || N.eqb c 45.

(** what [$] lets follow: nothing, or one final line feed *)
Definition line_end (tail : str) : Prop := tail = [] \/ tail = [10%N].

End PhoneWords.

(** "Phone construction succeeds if and only if the string is either a
    bare 9-10 digit string or a [+]-prefixed group of 9-14 digits
    optionally separated by single spaces or dashes" *)
Definition phone_as_stated : Prop :=
  forall (I : Interp) (s : str),
    _Phone_new s = Return (Field s)
    <-> bare_phone s \/ plus_phone space_or_dash_only 9 14 s.

Definition days_in_year (y : Z) : Z := if is_leap y then 366 else 365.

(** The calendar, one day at a time: the day after [d]. *)
Definition tomorrow (d : date) : date :=
  if day d <? days_in_month (year d) (month d)
  then mkdate (year d) (month d) (day d + 1)
  else if month d <? 12 then mkdate (year d) (month d + 1) 1
  else mkdate (year d + 1) 1 1.

(** a month and a day of that month, in any year from 1 on *)
Definition calendar_date (d : date) : Prop :=
  1 <= year d /\ 1 <= month d <= 12
  /\ 1 <= day d <= days_in_month (year d) (month d).

(** [d] falls on the month and day of [b] *)
Definition same_month_day (b d : date) : Prop :=
  month d = month b /\ day d = day b.

(** "the number of days from today to the next occurrence of the
    birthday's month and day": the [n]-th day after today falls on them
    and no day before it does, today included *)
Definition days_until_next (b today : date) (n : nat) : Prop :=
  same_month_day b (Nat.iter n tomorrow today)
  /\ forall k, (k < n)%nat -> ~ same_month_day b (Nat.iter k tomorrow today).

Definition on_Feb_29 (b : date) : Prop := month b = 2 /\ day b = 29.

(** "for every Record and every value of today: if no birthday is set,
    [days_to_birthday()] returns the absent value; if a birthday whose
    month/day is not Feb 29 is set, it returns the number of days from
    today to the next occurrence" *)
Definition days_to_birthday_as_stated : Prop :=
  forall (today : date) (r : _Record),
    valid_date today = true ->
    match birthday r with
    | None => days_to_birthday today r = Return None
    | Some b =>
        valid_date (value b) = true -> ~ on_Feb_29 (value b) ->
        exists n : nat,
          days_to_birthday today r = Return (Some (Z.of_nat n))
          /\ days_until_next (value b) today n
    end.

(** A record born on the first of January, and the last day of [date]. *)
Definition new_year_child : _Record :=
  set_birthday_field (Some (Field (mkdate 2000 1 1))) alexander.
Definition last_day : date := mkdate 9999 12 31.

(** ** More words, for the properties beyond the claims *)

(** a name as [name_value_pattern] takes it: 2 to 25 letters of the class,
    and what [$] lets follow *)
Definition name_shape (s : str) : Prop :=
  exists letters tail,
    s = letters ++ tail
    /\ (2 <= List.length letters <= 25)%nat
    /\ Forall (fun c => name_letter c = true) letters
    /\ line_end tail.

(** a phone as [phone_pattern] takes it *)
Definition phone_shape {I : Interp} (s : str) : Prop :=
  exists body tail,
    s = body ++ tail
    /\ line_end tail
    /\ (bare_phone body \/ plus_phone space_or_dash 10 15 body).

(** an address as [email_pattern] takes it: a local part, [@], a domain,
    a dot and at least two letters *)
Definition email_shape (s : str) : Prop :=
  exists local domain tld tail,
    s = local ++ [64%N] ++ domain ++ [46%N] ++ tld ++ tail
    /\ local <> [] /\ Forall (fun c => email_local c = true) local
    /\ domain <> [] /\ Forall (fun c => email_domain c = true) domain
    /\ (2 <= List.length tld)%nat /\ Forall (fun c => ascii_alpha c = true) tld
    /\ line_end tail.

(** the tokens [re.split] gives are three, [int] reads them as day,
    month and year, and they make the valid date [b] *)
Definition birthday_tokens {I : Interp} (s : str) (b : date) : Prop :=
  exists t1 t2 t3 d m y,
    re_split birthday_separator s = [t1; t2; t3]
    /\ int t1 = Return d /\ int t2 = Return m /\ int t3 = Return y
    /\ b = mkdate y m d /\ valid_date b = true.

(** the five characters a birthday is split at: dash, underscore,
    backslash, slash and bar *)
Definition separator_char (c : char) : Prop :=
  In c [45%N; 95%N; 92%N; 47%N; 124%N].

(** the string is three tokens with one separator character between the
    first and the second and one between the second and the third, and
    no separator character inside a token; [int] reads the tokens as
    day, month and year, and they make the valid date [b] *)
Definition birthday_parses {I : Interp} (s : str) (b : date) : Prop :=
  exists t1 c1 t2 c2 t3 d m y,
    s = t1 ++ c1 :: t2 ++ c2 :: t3
    /\ separator_char c1 /\ separator_char c2
    /\ (forall c, In c (t1 ++ t2 ++ t3) -> ~ separator_char c)
    /\ int t1 = Return d /\ int t2 = Return m /\ int t3 = Return y
    /\ b = mkdate y m d /\ valid_date b = true.

(** the number a string of decimal digits writes, after [acc] *)
Definition number_of (acc : Z) (zs : list Z) : Z :=
  fold_left (fun a z => a * 10 + z mod 10) zs acc.

(** [ps] with the value [new] in the first phone whose value is [old] *)
Fixpoint replace_first (old new : str) (ps : list _Phone) : list _Phone :=
  match ps with
  | [] => []
  | p :: rest =>
      if str_eqb (value p) old then Field new :: rest
      else p :: replace_first old new rest
  end.

(** A call of a method of a record, with the day on which it is made
    where the method asks for it. *)
Inductive record_call :=
| Add_phone (phone : str)
| Change_phone (old_phone new_phone : str)
| Del_phone (phone : str)
| Set_birthday (today : date) (birthday : str)
| Del_birthday
| Set_email (email : str)
| Del_email.

Section Calls.
Context {I : Interp}.

Definition call (c : record_call) : M _Record unit :=
  match c with
  | Add_phone p => add_phone p
  | Change_phone o n => change_phone o n
  | Del_phone p => del_phone p
  | Set_birthday today b => set_birthday today b
  | Del_birthday => del_birthday
  | Set_email e => set_email e
  | Del_email => del_email
  end.

(** The record after a series of calls, each made whether or not the one
    before it raised. *)
Definition calls (cs : list record_call) (r : _Record) : _Record :=
  fold_left (fun r c => state_after (call c) r) cs r.

Definition is_change_phone (c : record_call) : bool :=
  match c with Change_phone _ _ => true | _ => false end.

(** every field of the record holds a value its class takes *)
Definition fields_valid (r : _Record) : Prop :=
  re_match name_value_pattern (value (name r)) = true
  /\ Forall (fun p => re_match phone_pattern (value p) = true) (phones r)
  /\ (forall e, email r = Some e -> re_match email_pattern (value e) = true)
  /\ (forall b, birthday r = Some b -> valid_date (value b) = true).

End Calls.

(** A call on an address book: one of its own methods, or a method of
    the record under a key, as in [book[name].add_phone(...)]. *)
Inductive book_call :=
| Add_record (name : str)
| Del_record (name : str)
| On_record (name : str) (c : record_call).

Section BookCalls.
Context {I : Interp}.

(** The mapping after one call.  [book[name]] of a missing key raises
    before any method runs; the method of a record that is there works on
    the record in place, so the key keeps its position. *)
Definition book_step (d : dict) (c : book_call) : dict :=
  match c with
  | Add_record n => state_after (add_record n) d
  | Del_record n => state_after (del_record n) d
  | On_record n rc =>
      match getitem n d with
      | Some r => setitem n (state_after (call rc) r) d
      | None => d
      end
  end.

Definition book_calls (cs : list book_call) (d : dict) : dict :=
  fold_left book_step cs d.

(** keys are unique, every record sits under its own name, and every
    record holds valid fields *)
Definition book_ok (d : dict) : Prop :=
  dict_wf d
  /\ forall k r, In (k, r) d -> value (name r) = k /\ fields_valid r.

End BookCalls.

(** the keys of [other] that are no keys of [d], in their order *)
Definition new_keys (d other : dict) : list str :=
  filter (fun k => negb (contains k d)) (keys other).

(** [a] occurs in [b]: [b] is some text, then [a], then some text *)
Definition occurs (a b : str) : Prop := exists before after, b = before ++ a ++ after.

(** The condition under which [search] returns a record: the query in
    lower case occurs in the name in lower case, or the query as given
    occurs in a phone, or the query in lower case occurs in the birthday
    written as day, month and year, or in the email in lower case. *)
Definition hit_described {I : Interp} (query : str) (r : _Record) : Prop :=
  occurs (lower query) (lower (value (name r)))
  \/ (exists p, In p (phones r) /\ occurs query (value p))
  \/ (exists b, birthday r = Some b /\ occurs (lower query) (dd_mm_yyyy (value b)))
  \/ (exists e, email r = Some e /\ occurs (lower query) (lower (value e))).

Definition returns_a_number (o : outcome Z) : bool :=
  match o with Return _ => true | Raise _ => false end.

(** a string of ASCII characters only *)
Definition is_ascii (s : str) : bool := forallb (fun c => N.ltb c 128) s.

(** The calls of the script at the end of the file, up to the first
    [show_records] and after it. *)
Definition script_before_show : list book_call :=
  [Add_record (lit "Alexander");
   On_record (lit "Alexander") (Add_phone (lit "111111111"));
   On_record (lit "Alexander") (Add_phone (lit "111111112"));
   On_record (lit "Alexander") (Add_phone (lit "111111113"));
   On_record (lit "Alexander") (Set_birthday a_day (lit "30-09-2022"));
   On_record (lit "Alexander") (Set_email (lit "abcdef@gmail.com"));
   On_record (lit "Alexander") (Del_phone (lit "111111112"))].

Definition script_after_show : list book_call :=
  [Del_record (lit "Alexander")].

(** * Properties *)

Lemma str_eqb_eq (a b : str) : str_eqb a b = true <-> a = b.
Proof.
  unfold str_eqb. destruct (list_eq_dec N.eq_dec a b); split; congruence.
Qed.

Lemma str_eqb_refl (a : str) : str_eqb a a = true.
Proof. now apply str_eqb_eq. Qed.

Lemma str_eqb_neq (a b : str) : str_eqb a b = false <-> a <> b.
Proof.
  unfold str_eqb. destruct (list_eq_dec N.eq_dec a b); split; congruence.
Qed.

Example name_alex : re_match name_value_pattern (lit "Alexander") = true.
Proof. reflexivity. Qed.

Example name_digit : re_match name_value_pattern (lit "Alex1") = false.
Proof. reflexivity. Qed.

Example phone_bare : re_match phone_pattern (lit "111111111") = true.
Proof. reflexivity. Qed.

Example phone_plus10 : re_match phone_pattern (lit "+38 050-123-45-67") = true.
Proof. reflexivity. Qed.

Example phone_plus9 : re_match phone_pattern (lit "+123456789") = false.
Proof. reflexivity. Qed.

Example email_ok : re_match email_pattern (lit "abcdef@gmail.com") = true.
Proof. reflexivity. Qed.

Example email_bad : re_match email_pattern (lit "abcdef@gmail") = false.
Proof. reflexivity. Qed.

Example split_bar :
  re_split birthday_separator (lit "30|09|2022") = [lit "30"; lit "09"; lit "2022"].
Proof. reflexivity. Qed.

Example split_mixed :
  re_split birthday_separator (lit "1/2-3") = [lit "1"; lit "2"; lit "3"].
Proof. reflexivity. Qed.

Example int_plain : int (lit " 09 ") = Return 9.
Proof. reflexivity. Qed.

Example int_empty : int [] = Raise (ValueError (invalid_literal_for_int [])).
Proof. reflexivity. Qed.

Example ordinal_2022 : toordinal (mkdate 2022 9 30) = 738428.
Proof. reflexivity. Qed.

Example ordinal_one : toordinal (mkdate 1 1 1) = 1.
Proof. reflexivity. Qed.

Example alexander_new : _Record_new (lit "Alexander") = Return alexander.
Proof. reflexivity. Qed.

Example alexander_set_birthday :
  set_birthday a_day (lit "30-09-2022") alexander = (Return tt, alexander_born).
Proof. reflexivity. Qed.

(** ** C1: [contacts_with_days_to_bday] *)

Section C1.
Context {I : Interp}.
Variable today : date.
Variable print_object : object -> str.

Lemma bday_line_raises (days : Z) (record : _Record) :
  bday_line today print_object days record = Raise (AttributeError "bday").
Proof. reflexivity. Qed.

Lemma contacts_with_days_to_bday_nonempty (days : Z) k record (rest : dict) :
  contacts_with_days_to_bday today print_object days ((k, record) :: rest)
  = Raise (AttributeError "bday").
Proof. reflexivity. Qed.

Lemma contacts_with_days_to_bday_empty (days : Z) :
  contacts_with_days_to_bday today print_object days [] = Return [].
Proof. reflexivity. Qed.

End C1.

(** C1. On the 30th of September 2026 the record of Alexander, born on
    30-09-2022, is 0 days from its birthday according to
    [days_to_birthday], yet [contacts_with_days_to_bday 0] on the book
    that holds it returns no line: it raises [AttributeError], because
    it reads [record.bday] and a record has no such attribute. *)
Theorem contacts_with_days_to_bday_reads_a_missing_attribute :
  forall print_object : object -> str,
    days_to_birthday (mkdate 2026 9 30) alexander_born = Return (Some 0%Z)
    /\ contacts_with_days_to_bday (mkdate 2026 9 30) print_object 0
         [(lit "Alexander", alexander_born)]
       = Raise (AttributeError "bday").
Proof. intros; split; reflexivity. Qed.

(** ** C2: the phones of a record *)

(** C2. Two phones are added to a fresh record and the first is changed
    into the second: every call returns, and the record holds the same
    phone twice.  [add_phone] refuses a phone that is already there;
    [change_phone] does not look. *)
Theorem change_phone_stores_a_phone_twice :
  forall I : Interp,
  let ops := (bind (add_phone (lit "111111111")) (fun _ =>
              bind (add_phone (lit "111111112")) (fun _ =>
              change_phone (lit "111111111") (lit "111111112")))) in
  result_of ops alexander = Return tt
  /\ map (@value _) (phones (state_after ops alexander))
     = [lit "111111112"; lit "111111112"]
  /\ ~ phones_distinct (state_after ops alexander).
Proof.
  intros I. cbv zeta. split; [reflexivity|]. split; [reflexivity|].
  unfold phones_distinct.
  replace (map (@value _) (phones (state_after _ alexander)))
    with [lit "111111112"; lit "111111112"] by reflexivity.
  intros H. inversion H as [|x l Hin _]. apply Hin. now left.
Qed.

(** ** C6: names *)

(** C6. Twenty-five letters followed by a line feed make a string of 26
    characters, the last of which is no letter; [_Name] accepts it,
    because [$] also matches just before a final line feed. *)
Theorem name_of_26_characters_is_accepted :
  let v := twenty_five_letters ++ [10%N] in
  List.length v = 26%nat
  /\ forallb name_letter v = false
  /\ _Name_new v = Return (Field v).
Proof. cbv zeta. repeat split; reflexivity. Qed.

(** ** C7: birthdays *)

(** C7. [30|09|2022] holds none of the four separators, so splitting on
    them leaves one token; [_Birthday] splits on the bar as well and
    accepts the string as the 30th of September 2022. *)
Theorem birthday_splits_on_the_bar :
  forall I : Interp,
    re_split four_separators (lit "30|09|2022") = [lit "30|09|2022"]
    /\ _Birthday_new a_day (lit "30|09|2022") = Return (Field (mkdate 2022 9 30)).
Proof. intros I. split; reflexivity. Qed.

(** ** C3: a failed operation changes nothing *)

Section C3.
Context {I : Interp}.
Variable today : date.

Lemma atomic_pure_then {S A B} (o : outcome A) (k : A -> M S B) :
  (forall a, atomic (k a)) -> atomic (bind (pure o) k).
Proof.
  intros Hk s e s'. unfold bind, pure. destruct o as [a|e0].
  - apply Hk.
  - intros [= _ <-]. reflexivity.
Qed.

Lemma add_phone_atomic phone : atomic (add_phone phone).
Proof.
  apply atomic_pure_then. intros p s e s'. unfold bind, get, put, raise.
  destruct (negb (phone_in p (phones s))); intros [= ]; congruence.
Qed.

Lemma change_phone_loop_atomic old_phone new_phone :
  atomic (change_phone_loop old_phone new_phone).
Proof.
  intros ps. induction ps as [|p rest IH]; intros e s'; simpl.
  - now intros [= _ <-].
  - destruct (str_eqb (value p) old_phone).
    + unfold _Phone_set_value, assign.
      destruct (check_phone new_phone); intros [= ]; congruence.
    + destruct (change_phone_loop old_phone new_phone rest) as [o rest'] eqn:E.
      intros [= -> <-]. now rewrite (IH _ _ eq_refl).
Qed.

Lemma change_phone_atomic old_phone new_phone :
  atomic (change_phone old_phone new_phone).
Proof.
  intros r e r'. unfold change_phone.
  destruct (change_phone_loop old_phone new_phone (phones r)) as [o ps] eqn:E.
  intros [= -> <-]. apply change_phone_loop_atomic in E. subst ps. now destruct r.
Qed.

Lemma del_phone_atomic phone : atomic (del_phone phone).
Proof.
  apply atomic_pure_then. intros p s e s'. unfold bind, get, put, raise.
  destruct (phone_in p (phones s)); intros [= ]; congruence.
Qed.

Lemma set_birthday_atomic b : atomic (set_birthday today b).
Proof.
  apply atomic_pure_then. intros p s e s'. unfold bind, get, put.
  intros [= ].
Qed.

Lemma set_email_atomic m : atomic (set_email m).
Proof.
  apply atomic_pure_then. intros p s e s'. unfold bind, get, put.
  intros [= ].
Qed.

Lemma add_record_atomic n : atomic (add_record n).
Proof.
  intros d e d'. unfold add_record, bind, get, put, raise, pure.
  destruct (negb (contains n d)).
  - destruct (_Record_new n); intros [= ]; congruence.
  - intros [= ]; congruence.
Qed.

Lemma del_record_atomic n : atomic (del_record n).
Proof.
  intros d e d'. unfold del_record, bind, get, put, raise.
  destruct (contains n d); intros [= ]; congruence.
Qed.

Lemma phone_in_value (p : _Phone) (ps : list _Phone) :
  phone_in p ps = true <-> In (value p) (map (@value _) ps).
Proof.
  unfold phone_in. rewrite existsb_exists, in_map_iff. unfold phone_eqb.
  split; intros [q [H1 H2]]; exists q.
  - apply str_eqb_eq in H2. now split.
  - split; [assumption|]. now apply str_eqb_eq.
Qed.

Lemma del_phone_absent (phone : str) (r : _Record) :
  ~ In phone (map (@value _) (phones r)) ->
  del_phone phone r
  = (Raise (if re_match phone_pattern phone
            then KeyError (Phone_does_not_exist phone (value (name r)))
            else ValueError Phone_number_is_not_valid), r).
Proof.
  intros Habs. unfold del_phone, bind, pure, _Phone_new, init, check_phone.
  destruct (re_match phone_pattern phone); simpl; [|reflexivity].
  destruct (phone_in (Field phone) (phones r)) eqn:E; [|reflexivity].
  apply phone_in_value in E. contradiction.
Qed.

End C3.

(** C3.  Each of [add_phone], [change_phone], [del_phone],
    [set_birthday], [set_email], [add_record] and [del_record] leaves the
    record, or the mapping, exactly as it was whenever it raises, whatever
    the exception.  In particular [del_phone] on an absent phone, a
    string that [_Phone] takes and that is the value of no stored phone,
    raises the [KeyError] of a missing phone and leaves the record, its
    phone list included, as it was. *)
Theorem failed_operations_change_nothing :
  forall (I : Interp) (today : date),
    (forall phone, atomic (add_phone phone))
    /\ (forall old_phone new_phone, atomic (change_phone old_phone new_phone))
    /\ (forall phone, atomic (del_phone phone))
    /\ (forall b, atomic (set_birthday today b))
    /\ (forall m, atomic (set_email m))
    /\ (forall n, atomic (add_record n))
    /\ (forall n, atomic (del_record n))
    /\ (forall phone r,
          _Phone_new phone = Return (Field phone) ->
          ~ In phone (map (@value _) (phones r)) ->
          del_phone phone r
          = (Raise (KeyError (Phone_does_not_exist phone (value (name r)))), r)).
Proof.
  intros I today.
  split; [exact add_phone_atomic|].
  split; [exact change_phone_atomic|].
  split; [exact del_phone_atomic|].
  split; [exact (set_birthday_atomic today)|].
  split; [exact set_email_atomic|].
  split; [exact add_record_atomic|].
  split; [exact del_record_atomic|].
  intros phone r Hphone Habs.
  rewrite (del_phone_absent phone r Habs).
  revert Hphone. unfold _Phone_new, init, check_phone.
  destruct (re_match phone_pattern phone); [reflexivity|discriminate].
Qed.

(** The theorem at work: deleting a well-formed phone that is not there
    from the record of Alexander with one phone, and adding the phone
    that is there a second time. *)
Lemma failed_operations_change_nothing_witness :
  let r := state_after (add_phone (lit "111111111")) alexander in
  del_phone (lit "111111112") r
  = (Raise (KeyError (Phone_does_not_exist (lit "111111112") (lit "Alexander"))), r)
  /\ state_after (add_phone (lit "111111111")) r = r.
Proof.
  cbv zeta.
  pose proof (failed_operations_change_nothing ascii_interp a_day)
    as (Hadd & _ & _ & _ & _ & _ & _ & Hdel).
  split.
  - apply (Hdel (lit "111111112")).
    + reflexivity.
    + vm_compute. intros [H1|[]]; discriminate H1.
  - apply (Hadd (lit "111111111") _
             (ValueError (Phone_already_exists (lit "111111111") (lit "Alexander")))).
    reflexivity.
Defined.

(** ** C9: adding a record *)

Section C9.
Context {I : Interp}.

Lemma contains_keys (k : str) (d : dict) :
  contains k d = true <-> In k (keys d).
Proof.
  unfold contains, keys. rewrite existsb_exists, in_map_iff.
  split; intros [kv [H1 H2]]; exists kv.
  - apply str_eqb_eq in H2. now split.
  - split; [assumption|]. now apply str_eqb_eq.
Qed.

Lemma contains_false_keys (k : str) (d : dict) :
  contains k d = false <-> ~ In k (keys d).
Proof.
  rewrite <- contains_keys. destruct (contains k d); split; congruence.
Qed.

Lemma setitem_absent (k : str) (v : _Record) (d : dict) :
  ~ In k (keys d) -> setitem k v d = d ++ [(k, v)].
Proof.
  induction d as [|[k' v'] rest IH]; simpl; intros H; [reflexivity|].
  destruct (str_eqb k' k) eqn:E.
  - apply str_eqb_eq in E. tauto.
  - rewrite IH by tauto. reflexivity.
Qed.

Lemma getitem_last (k : str) (v : _Record) (d : dict) :
  ~ In k (keys d) -> getitem k (d ++ [(k, v)]) = Some v.
Proof.
  induction d as [|[k' v'] rest IH]; simpl; intros H.
  - now rewrite str_eqb_refl.
  - destruct (str_eqb k' k) eqn:E.
    + apply str_eqb_eq in E. tauto.
    + apply IH. tauto.
Qed.

Lemma add_record_present (n : str) (data : dict) :
  contains n data = true ->
  add_record n data = (Raise (KeyError Record_already_exists), data).
Proof. intros H. unfold add_record, bind, get. now rewrite H. Qed.

Lemma add_record_fresh (n : str) (data : dict) :
  contains n data = false ->
  add_record n data
  = if re_match name_value_pattern n
    then (Return tt, data ++ [(n, empty_record n)])
    else (Raise (ValueError Name_is_not_valid), data).
Proof.
  intros H. unfold add_record, bind, get, pure, put. rewrite H. simpl.
  unfold _Record_new, _Name_new, init, check_name.
  destruct (re_match name_value_pattern n); simpl; [|reflexivity].
  rewrite setitem_absent by now apply contains_false_keys.
  reflexivity.
Qed.

Lemma count_occ_keys_wf (k : str) (d : dict) :
  dict_wf d -> In k (keys d) ->
  count_occ (list_eq_dec N.eq_dec) (keys d) k = 1%nat.
Proof.
  intros Hwf Hin. apply NoDup_count_occ' with (decA := list_eq_dec N.eq_dec) in Hin;
    assumption.
Qed.

Lemma dict_wf_snoc (k : str) (v : _Record) (d : dict) :
  dict_wf d -> ~ In k (keys d) -> dict_wf (d ++ [(k, v)]).
Proof.
  unfold dict_wf, keys. intros Hwf Hin. rewrite map_app. simpl.
  apply NoDup_app.
  - assumption.
  - constructor; [simpl; tauto | constructor].
  - intros a Ha [<-|[]]. contradiction.
Qed.

End C9.

(** C9, as the program has it.  In a mapping with unique keys,
    [add_record(name)] raises the [KeyError] of a duplicate when [name] is
    already a key and changes nothing.  When [name] is no key and is a
    well-formed name, the call returns and has put a new empty record
    under [name], after the entries that were there; when it is no key and
    is not well-formed, the call raises the [ValueError] of the
    validation and stores nothing.  For a well-formed name, a second call
    after the first always raises the [KeyError] of a duplicate, and the
    mapping then holds exactly one entry with that key. *)
Theorem add_record_spec :
  forall (I : Interp) (n : str) (data : dict),
    dict_wf data ->
    (contains n data = true ->
       add_record n data = (Raise (KeyError Record_already_exists), data))
    /\ (contains n data = false ->
          add_record n data
          = if re_match name_value_pattern n
            then (Return tt, data ++ [(n, empty_record n)])
            else (Raise (ValueError Name_is_not_valid), data))
    /\ (contains n data = false -> re_match name_value_pattern n = true ->
          getitem n (state_after (add_record n) data) = Some (empty_record n))
    /\ (re_match name_value_pattern n = true ->
          let data1 := state_after (add_record n) data in
          add_record n data1 = (Raise (KeyError Record_already_exists), data1)
          /\ count_occ (list_eq_dec N.eq_dec) (keys data1) n = 1%nat
          /\ dict_wf data1).
Proof.
  intros I n data Hwf.
  split; [apply add_record_present|].
  split; [apply add_record_fresh|].
  split.
  - intros Hc Hn. unfold state_after. rewrite add_record_fresh, Hn by assumption.
    simpl. apply getitem_last. now apply contains_false_keys.
  - intros Hn. cbv zeta. unfold state_after.
    destruct (contains n data) eqn:Hc.
    + rewrite (add_record_present _ _ Hc). simpl.
      split; [now apply add_record_present|].
      split; [|assumption].
      apply count_occ_keys_wf; [assumption|]. now apply contains_keys.
    + rewrite (add_record_fresh _ _ Hc), Hn. simpl.
      assert (Hnot : ~ In n (keys data)) by now apply contains_false_keys.
      assert (Hin : In n (keys (data ++ [(n, empty_record n)]))).
      { unfold keys. rewrite map_app, in_app_iff. right. now left. }
      split; [apply add_record_present; now apply contains_keys|].
      split; [|now apply dict_wf_snoc].
      apply count_occ_keys_wf; [now apply dict_wf_snoc | assumption].
Qed.

(** The theorem at work on the empty book and the name [Alex]. *)
Lemma add_record_spec_witness :
  dict_wf []
  /\ add_record (lit "Alex") [] = (Return tt, [(lit "Alex", empty_record (lit "Alex"))])
  /\ add_record (lit "Alex") [(lit "Alex", empty_record (lit "Alex"))]
     = (Raise (KeyError Record_already_exists),
        [(lit "Alex", empty_record (lit "Alex"))]).
Proof.
  assert (Hwf : dict_wf []) by constructor.
  split; [exact Hwf|].
  pose proof (@add_record_spec ascii_interp (lit "Alex") [] Hwf) as (_ & H2 & _ & H4).
  split.
  - apply (H2 eq_refl).
  - apply (H4 eq_refl).
Defined.

(** C9, as stated, fails: [A] is no key of the empty book, and
    [add_record] stores nothing under it; it raises [ValueError]. *)
Lemma add_record_rejects_a_short_name : ~ add_record_as_stated.
Proof.
  intros H. specialize (H (lit "A") []). simpl in H. discriminate H.
Qed.

(** ** C10: the empty query *)

Section C10.
Context {I : Interp}.

Lemma search_hit_empty (record : _Record) : search_hit [] record = true.
Proof.
  unfold search_hit. replace (lower []) with (@nil char) by reflexivity.
  now destruct (lower (value (name record))).
Qed.

Lemma search_fold (query : str) (records : list _Record) (results : list str) :
  (forall r, In r records -> search_hit query r = true) ->
  fold_left
    (fun results record =>
       if search_hit query record
       then results ++ [formatted_record record]
       else results)
    records results
  = results ++ map formatted_record records.
Proof.
  revert results. induction records as [|r rest IH]; intros results H; simpl.
  - now rewrite app_nil_r.
  - rewrite (H r) by now left. rewrite IH by (intros; apply H; now right).
    now rewrite <- app_assoc.
Qed.

End C10.

Lemma join_comma_joined (texts : list str) :
  join (lit ", ") texts = comma_joined texts.
Proof.
  destruct texts as [|t rest]; [reflexivity|]. simpl comma_joined.
  revert t. induction rest as [|u rest IH]; intros t.
  - simpl. now rewrite app_nil_r.
  - change (join (lit ", ") (t :: u :: rest))
      with (t ++ lit ", " ++ join (lit ", ") (u :: rest)).
    rewrite IH. simpl. reflexivity.
Qed.

Lemma two_digits_padded (z : Z) : two_digits z = padded 2 z.
Proof. reflexivity. Qed.

Lemma four_digits_padded (y : Z) :
  map (fun k => digit_char (y / k)) [1000; 100; 10; 1] = padded 4 y.
Proof.
  simpl. unfold digit_char.
  rewrite !Z.div_div by lia. rewrite Z.div_1_r. reflexivity.
Qed.

Lemma _Birthday_str_dd_mm_yyyy {I : Interp} (b : _Birthday) :
  _Birthday_str b = dd_mm_yyyy (value b).
Proof.
  unfold _Birthday_str, strftime_dmY, dd_mm_yyyy.
  rewrite !two_digits_padded, four_digits_padded. reflexivity.
Qed.

Lemma formatted_record_block {I : Interp} (r : _Record) :
  formatted_record r = block_as_described r.
Proof.
  unfold formatted_record, block_as_described, labelled_line, or_no_records, no_records.
  destruct r as [n ps b e]; simpl.
  assert (Hp : match ps with
               | [] => lit "No records"
               | _ :: _ => join (lit ", ") (map (@value _) ps)
               end
               = match match ps with
                       | [] => None
                       | _ :: _ => Some (comma_joined (map (@value _) ps))
                       end with
                 | Some t => t
                 | None => lit "No records"
                 end).
  { destruct ps; [reflexivity|]. now rewrite join_comma_joined. }
  rewrite Hp.
  assert (Hb : match b with
               | Some b0 => _Birthday_str b0
               | None => lit "No records"
               end
               = match option_map (fun b0 => dd_mm_yyyy (value b0)) b with
                 | Some t => t
                 | None => lit "No records"
                 end).
  { destruct b; [|reflexivity]. simpl. apply _Birthday_str_dd_mm_yyyy. }
  rewrite Hb.
  assert (He : match e with
               | Some e0 => value e0
               | None => lit "No records"
               end
               = match option_map (@value _) e with
                 | Some t => t
                 | None => lit "No records"
                 end) by now destruct e.
  rewrite He.
  repeat (rewrite <- app_assoc; simpl). reflexivity.
Qed.

(** C10.  [search] with the empty string returns one formatted block for
    every record of the book, in the order of the keys of the mapping:
    the result is the list of the blocks of the records, each block being
    the line feed and the four labelled lines [Name], [Phones],
    [Birthday] and [Email] of its record. *)
Theorem search_empty_query_returns_every_record :
  forall (I : Interp) (data : dict),
    search [] data = map block_as_described (values data)
    /\ List.length (search [] data) = List.length data.
Proof.
  intros I data.
  assert (H : search [] data = map block_as_described (values data)).
  { unfold search. rewrite search_fold; [|intros; apply search_hit_empty].
    simpl. apply map_ext. intros r. apply formatted_record_block. }
  split; [exact H|]. rewrite H. unfold values. now rewrite !length_map.
Qed.

(** ** C4: saving, then loading *)

Lemma update_disjoint (other d : dict) :
  NoDup (keys other) ->
  (forall k, In k (keys other) -> ~ In k (keys d)) ->
  update d other = d ++ other.
Proof.
  unfold update. revert d.
  induction other as [|[k v] rest IH]; intros d Hnd Hdis; simpl.
  - now rewrite app_nil_r.
  - inversion Hnd as [|? ? Hk Hrest]; subst.
    rewrite setitem_absent by (apply Hdis; now left).
    rewrite IH; [now rewrite <- app_assoc|assumption|].
    intros k' Hk'. unfold keys. rewrite map_app, in_app_iff. simpl.
    intros [H|[H|[]]].
    + apply (Hdis k'); [now right|exact H].
    + subst k'. contradiction.
Qed.

Lemma update_empty (other : dict) : dict_wf other -> update [] other = other.
Proof.
  intros H. rewrite update_disjoint; [reflexivity|exact H|]. intros k _ [].
Qed.

Section C4.
Variable blob : Type.
Variable dumps : dict -> blob.

Lemma save_writes (filename : str) (data : dict) (w : world blob) :
  result_of (save_records_to_file dumps filename data) w = Return tt ->
  files (state_after (save_records_to_file dumps filename data) w) filename
  = Some (dumps data).
Proof.
  unfold result_of, state_after, save_records_to_file.
  destruct (writable w filename); simpl; [|discriminate].
  intros _. now rewrite str_eqb_refl.
Qed.

End C4.

(** C4.  Let [pickle] give back, on loading, the mapping it was given to
    dump.  Then for every address book, with any number of records, a
    [save_records_to_file] that returns, followed by
    [read_records_from_file] of the same path into an empty address book,
    leaves in that book the mapping that was saved: the same keys in the
    same order, each with a record equal in name, phones, email and
    birthday. *)
Theorem save_then_read_gives_the_book_back :
  forall (blob : Type) (dumps : dict -> blob) (loads : blob -> outcome dict),
    (forall d, loads (dumps d) = Return d) ->
    forall (filename : str) (data : dict) (w : world blob),
      dict_wf data ->
      result_of (save_records_to_file dumps filename data) w = Return tt ->
      read_records_from_file loads filename
        (state_after (save_records_to_file dumps filename data) w) []
      = (Return tt, data).
Proof.
  intros blob dumps loads Hcodec filename data w Hwf Hsave.
  unfold read_records_from_file.
  rewrite (save_writes dumps filename data w Hsave).
  rewrite Hcodec.
  rewrite update_empty by exact Hwf.
  reflexivity.
Qed.

(** The theorem at work: the book of Alexander, a codec that stores the
    mapping itself, and a file system with no file in which every path can
    be written. *)
Lemma save_then_read_gives_the_book_back_witness :
  let data := [(lit "Alexander", alexander_born)] in
  let w := {| files := fun _ => @None dict; writable := fun _ => true |} in
  let filename := lit "book.bin" in
  read_records_from_file (@Return dict) filename
    (state_after (save_records_to_file (fun d => d) filename data) w) []
  = (Return tt, data).
Proof.
  cbv zeta.
  apply (@save_then_read_gives_the_book_back dict (fun d => d) (@Return dict)).
  - reflexivity.
  - repeat constructor. simpl. tauto.
  - reflexivity.
Defined.

(** ** What [run] computes, constructor by constructor *)

Section RunFacts.
Variable len : nat.

Lemma run_Cls (p : char -> bool) (s t : str) :
  In t (run len (Cls p) s) <-> exists c, s = c :: t /\ p c = true.
Proof.
  simpl. destruct s as [|c s'].
  - split; [intros [] | intros [c [H _]]; discriminate H].
  - destruct (p c) eqn:E; simpl.
    + split.
      * intros [<-|[]]. now exists c.
      * intros [c' [[= <- <-] _]]. now left.
    + split; [intros [] | intros [c' [[= <- <-] H]]; congruence].
Qed.

Lemma run_Cat (a b : regex) (s t : str) :
  In t (run len (Cat a b) s)
  <-> exists u, In u (run len a s) /\ In t (run len b u).
Proof. simpl. apply in_flat_map. Qed.

Lemma run_Alt (a b : regex) (s t : str) :
  In t (run len (Alt a b) s) <-> In t (run len a s) \/ In t (run len b s).
Proof. simpl. apply in_app_iff. Qed.

Lemma run_Eol (s t : str) :
  In t (run len Eol s) <-> t = s /\ (s = [] \/ s = [10%N]).
Proof.
  simpl. destruct s as [|c [|c' s']].
  - simpl. split; [intros [<-|[]]; auto | intros [-> _]; now left].
  - destruct (N.eqb_spec c 10); simpl.
    + subst c. split; [intros [<-|[]]; auto | intros [-> _]; now left].
    + split; [intros [] | intros [_ [H|[= H]]]; [discriminate H | contradiction]].
  - split; [intros [] | intros [_ [H|H]]; discriminate H].
Qed.

Lemma run_Bol (s t : str) :
  In t (run len Bol s) <-> t = s /\ List.length s = len.
Proof.
  simpl. destruct (Nat.eqb_spec (List.length s) len); simpl.
  - split; [intros [<-|[]]; auto | intros [-> _]; now left].
  - split; [intros [] | intros [_ H]; contradiction].
Qed.

Lemma iter_steps (step : str -> list str) (n lo : nat) (s t : str) :
  In t (iter step lo n s)
  <-> exists k, (lo <= k <= n)%nat /\ steps step k s t.
Proof.
  revert lo s. induction n as [|n IH]; intros lo s; simpl.
  - destruct lo; simpl.
    + split.
      * intros [<-|[]]. exists 0%nat. simpl. split; [lia|reflexivity].
      * intros [k [Hk H]]. assert (k = 0%nat) by lia. subst k. simpl in H. now left.
    + split; [intros [] | intros [k [Hk _]]; lia].
  - rewrite in_app_iff, in_flat_map. split.
    + intros [[u [Hu Ht]] | H].
      * apply IH in Ht. destruct Ht as [k [Hk Hs]].
        exists (S k). split; [lia|]. simpl. now exists u.
      * destruct lo; [|destruct H]. destruct H as [<-|[]].
        exists 0%nat. simpl. split; [lia|reflexivity].
    + intros [[|k] [Hk Hs]]; simpl in Hs.
      * right. assert (lo = 0%nat) by lia. subst. now left.
      * left. destruct Hs as [u [Hu Hs]]. exists u. split; [assumption|].
        apply IH. exists k. split; [lia|assumption].
Qed.

Lemma run_Rep (a : regex) (lo hi : nat) (s t : str) :
  In t (run len (Rep a lo (Some hi)) s)
  <-> exists k, (lo <= k <= hi)%nat /\ steps (run len a) k s t.
Proof. simpl. apply iter_steps. Qed.

(** Repeating a pattern whose matches are the pieces of the family [G]
    eats a concatenation of such pieces. *)
Lemma steps_pieces (step : str -> list str) (G : str -> Prop) :
  (forall s u, In u (step s) <-> exists g, G g /\ s = g ++ u) ->
  forall k s t,
    steps step k s t
    <-> exists gs, List.length gs = k /\ Forall G gs /\ s = List.concat gs ++ t.
Proof.
  intros Hstep. induction k as [|k IH]; intros s t; simpl.
  - split.
    + intros ->. exists []. simpl. auto.
    + intros [gs [Hl [_ ->]]]. destruct gs; [reflexivity|discriminate Hl].
  - split.
    + intros [u [Hu Hs]]. apply Hstep in Hu. destruct Hu as [g [Hg ->]].
      apply IH in Hs. destruct Hs as [gs [Hl [Hgs ->]]].
      exists (g :: gs). simpl. rewrite <- app_assoc. auto.
    + intros [[|g gs] [Hl [Hgs ->]]]; [discriminate Hl|].
      inversion Hgs; subst. exists (List.concat gs ++ t). split.
      * apply Hstep. exists g. simpl. rewrite <- app_assoc. auto.
      * apply IH. exists gs. injection Hl as Hl. auto.
Qed.

Lemma steps_Cls (p : char -> bool) (k : nat) (s t : str) :
  steps (run len (Cls p)) k s t
  <-> exists pre, List.length pre = k /\ Forall (fun c => p c = true) pre
                  /\ s = pre ++ t.
Proof.
  rewrite (@steps_pieces (run len (Cls p)) (fun g => exists c, g = [c] /\ p c = true)).
  - split.
    + intros [gs [Hl [Hgs ->]]]. exists (List.concat gs). split; [|split; [|reflexivity]].
      * clear t. subst k. induction Hgs as [|g gs [c [-> _]] _ IH]; simpl; auto.
      * clear Hl. induction Hgs as [|g gs [c [-> Hc]] _ IH]; simpl; auto.
    + intros [pre [Hl [Hp ->]]]. exists (map (fun c => [c]) pre).
      rewrite length_map. split; [assumption|]. split.
      * clear Hl. induction Hp; simpl; constructor; eauto.
      * f_equal. clear. induction pre; simpl; congruence.
  - intros s0 u. rewrite run_Cls. split.
    + intros [c [-> Hc]]. exists [c]. eauto.
    + intros [g [[c [-> Hc]] ->]]. now exists c.
Qed.

End RunFacts.

Lemma re_match_true (r : regex) (s : str) :
  re_match r s = true <-> exists t, In t (run (List.length s) r s).
Proof.
  unfold re_match. destruct (run (List.length s) r s) as [|t l].
  - split; [discriminate | intros [t []]].
  - split; [intros _; exists t; now left | reflexivity].
Qed.

(** ** C5: phones *)

Section C5.
Context {I : Interp}.

Lemma run_phone_group (len : nat) (s u : str) :
  In u (run len phone_group s)
  <-> exists g, digit_group space_or_dash g /\ s = g ++ u.
Proof.
  unfold phone_group, opt. rewrite run_Cat. split.
  - intros [v [Hv Hu]]. apply run_Cls in Hv. destruct Hv as [d [-> Hd]].
    apply run_Rep in Hu. destruct Hu as [k [Hk Hs]].
    apply steps_Cls in Hs. destruct Hs as [pre [Hl [Hp ->]]].
    destruct pre as [|c [|c' pre]]; simpl in Hl; try lia.
    + exists [d]. split; [exists d; auto | reflexivity].
    + inversion Hp; subst. exists [d; c]. split; [|reflexivity].
      exists d. split; [assumption|]. right. now exists c.
  - intros [g [[d [Hd [->|[c [Hc ->]]]]] ->]].
    + exists u. split; [apply run_Cls; now exists d|].
      apply run_Rep. exists 0%nat. simpl. split; [lia|reflexivity].
    + exists (c :: u). split; [apply run_Cls; now exists d|].
      apply run_Rep. exists 1%nat. split; [lia|].
      apply steps_Cls. exists [c]. repeat split. now constructor.
Qed.

(** Every string [phone_pattern] matches, line feed included. *)
Lemma phone_pattern_matches (s : str) :
  re_match phone_pattern s = true
  <-> (exists gs d tail,
          s = 43%N :: List.concat gs ++ d :: tail
          /\ (9 <= List.length gs <= 14)%nat
          /\ Forall (digit_group space_or_dash) gs
          /\ is_digit d = true /\ line_end tail)
      \/ (exists ds tail,
             s = ds ++ tail
             /\ (9 <= List.length ds <= 10)%nat
             /\ Forall (fun c => is_digit c = true) ds /\ line_end tail).
Proof.
  rewrite re_match_true. unfold phone_pattern, chr. split.
  - intros [t Ht]. apply run_Alt in Ht. destruct Ht as [Ht|Ht].
    + left. apply run_Cat in Ht. destruct Ht as [u0 [H0 Ht]].
      apply run_Bol in H0. destruct H0 as [-> _].
      apply run_Cat in Ht. destruct Ht as [u1 [H1 Ht]].
      apply run_Cls in H1. destruct H1 as [c [-> Hc]].
      apply N.eqb_eq in Hc. subst c.
      apply run_Cat in Ht. destruct Ht as [u2 [H2 Ht]].
      apply run_Rep in H2. destruct H2 as [k [Hk H2]].
      apply (@steps_pieces _ _ (run_phone_group _)) in H2.
      destruct H2 as [gs [Hl [Hgs ->]]].
      apply run_Cat in Ht. destruct Ht as [u3 [H3 Ht]].
      apply run_Cls in H3. destruct H3 as [d [-> Hd]].
      apply run_Eol in Ht. destruct Ht as [-> He].
      exists gs, d, u3. subst k. auto.
    + right. apply run_Cat in Ht. destruct Ht as [u1 [H1 Ht]].
      apply run_Rep in H1. destruct H1 as [k [Hk H1]].
      apply steps_Cls in H1. destruct H1 as [ds [Hl [Hds ->]]].
      apply run_Eol in Ht. destruct Ht as [-> He].
      exists ds, u1. subst k. auto.
  - intros [[gs [d [tail [-> [Hl [Hgs [Hd He]]]]]]] | [ds [tail [-> [Hl [Hds He]]]]]];
      exists tail; apply run_Alt.
    + left. apply run_Cat. eexists. split; [apply run_Bol; split; reflexivity|].
      apply run_Cat. exists (List.concat gs ++ d :: tail).
      split; [apply run_Cls; exists 43%N; auto|].
      apply run_Cat. exists (d :: tail). split.
      * apply run_Rep. exists (List.length gs). split; [assumption|].
        apply (@steps_pieces _ _ (run_phone_group _)). exists gs. auto.
      * apply run_Cat. exists tail. split; [apply run_Cls; now exists d|].
        apply run_Eol. auto.
    + right. apply run_Cat. exists tail. split.
      * apply run_Rep. exists (List.length ds). split; [assumption|].
        apply steps_Cls. exists ds. auto.
      * apply run_Eol. auto.
Qed.

Lemma check_phone_cases (s : str) :
  _Phone_new s = (if re_match phone_pattern s
                  then Return (Field s)
                  else Raise (ValueError Phone_number_is_not_valid)).
Proof.
  unfold _Phone_new, init, check_phone. now destruct (re_match phone_pattern s).
Qed.

End C5.

(** C5, as the program has it.  For every string that does not end in a
    line feed, [_Phone] accepts it if and only if it is a bare string of 9
    or 10 digits, or a [+] followed by 10 to 15 digits, each of them but
    the last followed or not by one whitespace character or dash; every
    other such string is refused with the [ValueError] of the
    validation.  A digit is what [\d] matches and whitespace what [\s]
    matches. *)
Theorem phone_accepts_exactly :
  forall (I : Interp) (s : str),
    last s 0%N <> 10%N ->
    (_Phone_new s = Return (Field s)
     <-> bare_phone s \/ plus_phone space_or_dash 10 15 s)
    /\ (_Phone_new s = Return (Field s)
        \/ _Phone_new s = Raise (ValueError Phone_number_is_not_valid)).
Proof.
  intros I s Hlast. rewrite check_phone_cases. split.
  - destruct (re_match phone_pattern s) eqn:E.
    + split; [intros _|reflexivity].
      apply phone_pattern_matches in E.
      destruct E as [[gs [d [tail [-> [Hl [Hgs [Hd [->| ->]]]]]]]]
                    | [ds [tail [-> [Hl [Hds [->| ->]]]]]]].
      * right. exists gs, d. repeat split; auto; lia.
      * exfalso. apply Hlast.
        change (43%N :: List.concat gs ++ [d; 10%N])
          with ((43%N :: List.concat gs) ++ [d; 10%N]).
        change [d; 10%N] with ([d] ++ [10%N]).
        now rewrite !app_assoc, last_last.
      * left. rewrite app_nil_r. split; assumption.
      * exfalso. apply Hlast. now rewrite last_last.
    + split; [discriminate|]. intros H. exfalso.
      assert (Hm : re_match phone_pattern s = true); [|congruence].
      apply phone_pattern_matches.
      destruct H as [[Hds Hl] | [gs [d [-> [Hgs [Hd Hl]]]]]].
      * right. exists s, []. rewrite app_nil_r. unfold line_end. auto.
      * left. exists gs, d, []. unfold line_end. repeat split; auto; lia.
  - destruct (re_match phone_pattern s); auto.
Qed.

(** The theorem at work on [111111111]. *)
Lemma phone_accepts_exactly_witness :
  last (lit "111111111") 0%N <> 10%N
  /\ _Phone_new (lit "111111111") = Return (Field (lit "111111111")).
Proof.
  assert (H : last (lit "111111111") 0%N <> 10%N) by (vm_compute; discriminate).
  split; [exact H|].
  apply (proj1 (@phone_accepts_exactly ascii_interp (lit "111111111") H)).
  left. split.
  - repeat constructor.
  - vm_compute. lia.
Defined.

(** C5, as stated, fails: [+123456789] is a [+] and nine digits, and
    [_Phone] refuses it. *)
Lemma phone_of_nine_digits_after_plus_is_refused : ~ phone_as_stated.
Proof.
  intros H. specialize (H ascii_interp (lit "+123456789")).
  assert (Hs : plus_phone space_or_dash_only 9 14 (lit "+123456789")).
  { exists (map (fun c => [c]) (lit "12345678")), 57%N.
    split; [reflexivity|]. split; [|split; [reflexivity | simpl; lia]].
    repeat constructor; eexists; (split; [|left; reflexivity]); reflexivity. }
  apply (fun x => proj2 H (or_intror x)) in Hs. discriminate Hs.
Qed.

(** ** The calendar *)

Lemma days_before_year_succ (y : Z) :
  days_before_year (y + 1) = days_before_year y + days_in_year y.
Proof.
  unfold days_before_year, days_in_year, is_leap.
  replace (y + 1 - 1) with y by lia.
  destruct (Z.eqb_spec (y mod 4) 0), (Z.eqb_spec (y mod 100) 0),
    (Z.eqb_spec (y mod 400) 0); simpl;
    Z.div_mod_to_equations; lia.
Qed.

Lemma days_in_year_pos (y : Z) : 365 <= days_in_year y.
Proof. unfold days_in_year. destruct (is_leap y); lia. Qed.

Lemma days_before_year_le (n : nat) (y : Z) :
  days_before_year y <= days_before_year (y + Z.of_nat n).
Proof.
  induction n as [|n IH].
  - replace (y + Z.of_nat 0) with y by lia. lia.
  - replace (y + Z.of_nat (S n)) with (y + Z.of_nat n + 1) by lia.
    rewrite days_before_year_succ. pose proof (days_in_year_pos (y + Z.of_nat n)). lia.
Qed.

Lemma days_before_year_next (y1 y2 : Z) :
  y1 < y2 -> days_before_year y1 + days_in_year y1 <= days_before_year y2.
Proof.
  intros H. rewrite <- days_before_year_succ.
  replace y2 with (y1 + 1 + Z.of_nat (Z.to_nat (y2 - y1 - 1))) by lia.
  apply days_before_year_le.
Qed.

Lemma month_cases (m : Z) :
  1 <= m <= 12 ->
  m = 1 \/ m = 2 \/ m = 3 \/ m = 4 \/ m = 5 \/ m = 6
  \/ m = 7 \/ m = 8 \/ m = 9 \/ m = 10 \/ m = 11 \/ m = 12.
Proof. lia. Qed.

Ltac each_month H :=
  apply month_cases in H;
  repeat (destruct H as [H|H]); subst.

Lemma days_in_month_bounds (y m : Z) : 28 <= days_in_month y m <= 31.
Proof.
  unfold days_in_month.
  destruct (m =? 2); [destruct (is_leap y); lia|].
  destruct ((m =? 4) || (m =? 6) || (m =? 9) || (m =? 11)); lia.
Qed.

Lemma days_before_month_succ (y m : Z) :
  1 <= m <= 11 ->
  days_before_month y (m + 1) = days_before_month y m + days_in_month y m.
Proof.
  intros H. assert (H' : 1 <= m <= 12) by lia.
  each_month H'; try lia;
    unfold days_before_month, days_in_month; simpl; destruct (is_leap y); reflexivity.
Qed.

Lemma days_before_month_december (y : Z) :
  days_before_month y 12 + 31 = days_in_year y.
Proof.
  unfold days_before_month, days_in_year; simpl; destruct (is_leap y); reflexivity.
Qed.

Lemma days_before_month_next (y m1 m2 : Z) :
  1 <= m1 -> m1 < m2 -> m2 <= 12 ->
  days_before_month y m1 + days_in_month y m1 <= days_before_month y m2.
Proof.
  intros H1 H12 H2.
  assert (Ha : 1 <= m1 <= 12) by lia. assert (Hb : 1 <= m2 <= 12) by lia.
  each_month Ha; each_month Hb; try lia;
    unfold days_before_month, days_in_month; simpl; destruct (is_leap y); simpl; lia.
Qed.

Lemma month_within_year (y m : Z) :
  1 <= m <= 12 ->
  0 <= days_before_month y m
  /\ days_before_month y m + days_in_month y m <= days_in_year y.
Proof.
  intros Hm. each_month Hm;
    unfold days_before_month, days_in_month, days_in_year; simpl;
    destruct (is_leap y); simpl; lia.
Qed.

Lemma day_of_year_bounds (d : date) :
  calendar_date d ->
  1 <= days_before_month (year d) (month d) + day d <= days_in_year (year d).
Proof.
  intros (_ & Hm & Hd). pose proof (month_within_year (year d) Hm). lia.
Qed.

Lemma tomorrow_calendar (d : date) : calendar_date d -> calendar_date (tomorrow d).
Proof.
  intros (Hy & Hm & Hd). unfold tomorrow, calendar_date.
  destruct (Z.ltb_spec (day d) (days_in_month (year d) (month d))); simpl.
  - lia.
  - destruct (Z.ltb_spec (month d) 12); simpl.
    + pose proof (days_in_month_bounds (year d) (month d + 1)). lia.
    + pose proof (days_in_month_bounds (year d + 1) 1). lia.
Qed.

Lemma toordinal_tomorrow (d : date) :
  calendar_date d -> toordinal (tomorrow d) = toordinal d + 1.
Proof.
  intros (Hy & Hm & Hd). unfold tomorrow, toordinal.
  destruct (Z.ltb_spec (day d) (days_in_month (year d) (month d))); simpl.
  - lia.
  - destruct (Z.ltb_spec (month d) 12); simpl.
    + rewrite days_before_month_succ by lia. lia.
    + assert (Hm12 : month d = 12) by lia.
      rewrite days_before_year_succ, Hm12 in *.
      pose proof (days_before_month_december (year d)).
      assert (days_in_month (year d) 12 = 31) by reflexivity.
      assert (days_before_month (year d + 1) 1 = 0) by reflexivity.
      lia.
Qed.

Lemma iter_tomorrow (k : nat) (d : date) :
  calendar_date d ->
  calendar_date (Nat.iter k tomorrow d)
  /\ toordinal (Nat.iter k tomorrow d) = toordinal d + Z.of_nat k.
Proof.
  intros Hd. induction k as [|k [IH1 IH2]]; simpl.
  - split; [assumption|lia].
  - split; [now apply tomorrow_calendar|].
    rewrite toordinal_tomorrow by assumption. lia.
Qed.

Lemma toordinal_lt (a b : date) :
  calendar_date a -> calendar_date b ->
  date_ltb a b = true -> toordinal a < toordinal b.
Proof.
  intros Ha Hb H. pose proof (day_of_year_bounds Ha) as Da.
  pose proof (day_of_year_bounds Hb) as Db.
  destruct Ha as (_ & Hma & Hda), Hb as (_ & Hmb & Hdb).
  unfold date_ltb in H. unfold toordinal.
  apply orb_true_iff in H. destruct H as [H|H].
  - apply Z.ltb_lt in H. pose proof (days_before_year_next H). lia.
  - apply andb_true_iff in H. destruct H as [Hy H]. apply Z.eqb_eq in Hy.
    rewrite Hy in *. apply orb_true_iff in H. destruct H as [H|H].
    + apply Z.ltb_lt in H.
      pose proof (@days_before_month_next (year b) (month a) (month b)). lia.
    + apply andb_true_iff in H. destruct H as [Hm H]. apply Z.eqb_eq in Hm.
      apply Z.ltb_lt in H. rewrite Hm. lia.
Qed.

Lemma date_trichotomy (a b : date) :
  date_ltb a b = false -> date_ltb b a = false -> a = b.
Proof.
  destruct a as [ya ma da], b as [yb mb db]. unfold date_ltb; simpl.
  intros H1 H2.
  destruct (Z.ltb_spec ya yb), (Z.ltb_spec yb ya); simpl in *; try discriminate.
  assert (ya = yb) by lia. subst yb. rewrite Z.eqb_refl in *. simpl in *.
  destruct (Z.ltb_spec ma mb), (Z.ltb_spec mb ma); simpl in *; try discriminate.
  assert (ma = mb) by lia. subst mb. rewrite Z.eqb_refl in *. simpl in *.
  destruct (Z.ltb_spec da db), (Z.ltb_spec db da); simpl in *; try discriminate.
  assert (da = db) by lia. now subst db.
Qed.

Lemma toordinal_le (a b : date) :
  calendar_date a -> calendar_date b ->
  date_ltb b a = false -> toordinal a <= toordinal b.
Proof.
  intros Ha Hb H. destruct (date_ltb a b) eqn:E.
  - pose proof (toordinal_lt Ha Hb E). lia.
  - rewrite (date_trichotomy a b E H). lia.
Qed.

Lemma toordinal_injective (a b : date) :
  calendar_date a -> calendar_date b -> toordinal a = toordinal b -> a = b.
Proof.
  intros Ha Hb H. apply date_trichotomy.
  - destruct (date_ltb a b) eqn:E; [|reflexivity].
    pose proof (toordinal_lt Ha Hb E). lia.
  - destruct (date_ltb b a) eqn:E; [|reflexivity].
    pose proof (toordinal_lt Hb Ha E). lia.
Qed.

Lemma valid_date_calendar (d : date) : valid_date d = true -> calendar_date d.
Proof.
  unfold valid_date, calendar_date, MINYEAR. intros H.
  repeat (apply andb_true_iff in H; destruct H as [H ?]).
  repeat match goal with
         | H : (_ <=? _) = true |- _ => apply Z.leb_le in H
         end.
  lia.
Qed.

Lemma date_new_valid (y m d : Z) :
  valid_date (mkdate y m d) = true -> date_new y m d = Return (mkdate y m d).
Proof.
  unfold valid_date, date_new, MINYEAR, MAXYEAR; simpl. intros H.
  repeat (apply andb_true_iff in H; destruct H as [H ?]).
  repeat match goal with
         | H : (_ <=? _) = true |- _ => rewrite H; apply Z.leb_le in H
         end.
  pose proof (days_in_month_bounds y m).
  assert (Hy : fits_C_int y = true).
  { unfold fits_C_int. apply andb_true_iff. rewrite Z.leb_le, Z.ltb_lt. lia. }
  assert (Hm : fits_C_int m = true).
  { unfold fits_C_int. apply andb_true_iff. rewrite Z.leb_le, Z.ltb_lt. lia. }
  assert (Hd : fits_C_int d = true).
  { unfold fits_C_int. apply andb_true_iff. rewrite Z.leb_le, Z.ltb_lt. lia. }
  now rewrite Hy, Hm, Hd.
Qed.

Lemma date_ltb_iff (a b : date) :
  date_ltb a b = true
  <-> year a < year b
      \/ (year a = year b
          /\ (month a < month b \/ (month a = month b /\ day a < day b))).
Proof.
  unfold date_ltb.
  rewrite orb_true_iff, andb_true_iff, orb_true_iff, andb_true_iff,
    !Z.ltb_lt, !Z.eqb_eq.
  reflexivity.
Qed.

Lemma date_ltb_false_iff (a b : date) :
  date_ltb a b = false
  <-> ~ (year a < year b
         \/ (year a = year b
             /\ (month a < month b \/ (month a = month b /\ day a < day b)))).
Proof.
  rewrite <- date_ltb_iff. destruct (date_ltb a b); split; congruence.
Qed.

Lemma days_in_month_other_year (y y' m d : Z) :
  ~ (m = 2 /\ d = 29) -> d <= days_in_month y m -> d <= days_in_month y' m.
Proof.
  unfold days_in_month. destruct (Z.eqb_spec m 2).
  - destruct (is_leap y), (is_leap y'); lia.
  - tauto.
Qed.

(** ** C8: the days to the birthday *)

(** Counting the days up to a date [target] that is the first, from
    today on, to fall on the month and day of [b]. *)
Lemma count_to_target (today target b : date) :
  calendar_date today -> calendar_date target ->
  date_ltb target today = false ->
  same_month_day b target ->
  (forall D, calendar_date D -> same_month_day b D ->
             date_ltb D today = false -> date_ltb D target = false) ->
  exists n : nat,
    Z.of_nat n = days_between target today
    /\ Nat.iter n tomorrow today = target
    /\ days_until_next b today n.
Proof.
  intros Ht HT Hle Hsame Hfirst.
  pose proof (toordinal_le Ht HT Hle) as Hord.
  exists (Z.to_nat (toordinal target - toordinal today)).
  assert (Hn : Z.of_nat (Z.to_nat (toordinal target - toordinal today))
               = days_between target today) by (unfold days_between; lia).
  assert (Hit : Nat.iter (Z.to_nat (toordinal target - toordinal today)) tomorrow today
                = target).
  { destruct (iter_tomorrow (Z.to_nat (toordinal target - toordinal today)) Ht)
      as [Hc Ho].
    apply toordinal_injective; [assumption|assumption|]. rewrite Ho. lia. }
  split; [exact Hn|]. split; [exact Hit|]. split.
  - now rewrite Hit.
  - intros k Hk HD. destruct (iter_tomorrow k Ht) as [Hc Ho].
    assert (Hge : date_ltb (Nat.iter k tomorrow today) today = false).
    { destruct (date_ltb (Nat.iter k tomorrow today) today) eqn:E; [|reflexivity].
      pose proof (toordinal_lt Hc Ht E). lia. }
    pose proof (toordinal_le HT Hc (Hfirst _ Hc HD Hge)). lia.
Qed.

Section C8.
Variable today : date.
Hypothesis today_valid : valid_date today = true.

Lemma days_to_birthday_None (r : _Record) :
  birthday r = None -> days_to_birthday today r = Return None.
Proof. intros H. unfold days_to_birthday. now rewrite H. Qed.

Lemma days_to_birthday_Some (r : _Record) (b : _Birthday) :
  birthday r = Some b ->
  valid_date (value b) = true ->
  ~ on_Feb_29 (value b) ->
  (date_ltb (mkdate (year today) (month (value b)) (day (value b))) today = true ->
   year today < MAXYEAR) ->
  exists n : nat,
    days_to_birthday today r = Return (Some (Z.of_nat n))
    /\ days_until_next (value b) today n
    /\ (n = 0%nat <-> same_month_day (value b) today)
    /\ Nat.iter n tomorrow today
       = mkdate (if date_ltb (mkdate (year today) (month (value b)) (day (value b))) today
                 then year today + 1 else year today)
                (month (value b)) (day (value b)).
Proof.
  intros Hb Hvalid Hfeb Hrange.
  set (m := month (value b)) in *. set (d := day (value b)) in *.
  pose proof (valid_date_calendar _ today_valid) as Ht.
  pose proof (valid_date_calendar _ Hvalid) as Hbc.
  assert (Hty : 1 <= year today <= 9999).
  { revert today_valid. unfold valid_date, MINYEAR, MAXYEAR. intros H.
    repeat (apply andb_true_iff in H; destruct H as [H ?]).
    repeat match goal with
           | H : (_ <=? _) = true |- _ => apply Z.leb_le in H
           end. lia. }
  assert (Hday : forall y, 1 <= d <= days_in_month y m).
  { intros y. destruct Hbc as (_ & _ & Hd). fold m d in Hd. split; [lia|].
    apply (@days_in_month_other_year (year (value b))); [exact Hfeb | lia]. }
  assert (Hv : forall y, 1 <= y <= 9999 -> valid_date (mkdate y m d) = true).
  { intros y Hy. unfold valid_date, MINYEAR, MAXYEAR; simpl.
    destruct Hbc as (_ & Hm & _). fold m in Hm. specialize (Hday y).
    repeat (apply andb_true_iff; split); apply Z.leb_le; lia. }
  set (target := mkdate (if date_ltb (mkdate (year today) m d) today
                         then year today + 1 else year today) m d).
  assert (Hcode : days_to_birthday today r
                  = Return (Some (days_between target today))).
  { unfold days_to_birthday. rewrite Hb. unfold replace_year. fold m d.
    rewrite (date_new_valid _ _ _ (Hv _ Hty)). simpl. unfold target.
    destruct (date_ltb (mkdate (year today) m d) today) eqn:E; simpl.
    - rewrite date_new_valid; [reflexivity|]. apply Hv.
      specialize (Hrange eq_refl). unfold MAXYEAR in Hrange. lia.
    - reflexivity. }
  assert (HT : calendar_date target).
  { unfold target, calendar_date; simpl. destruct Hbc as (_ & Hm & _). fold m in Hm.
    split; [destruct (date_ltb _ today); lia|]. split; [exact Hm|apply Hday]. }
  assert (Hle : date_ltb target today = false).
  { apply date_ltb_false_iff. unfold target; simpl.
    destruct (date_ltb (mkdate (year today) m d) today) eqn:E.
    - lia.
    - apply date_ltb_false_iff in E. simpl in E. lia. }
  assert (Hfirst : forall D, calendar_date D -> same_month_day (value b) D ->
                             date_ltb D today = false -> date_ltb D target = false).
  { intros D _ [HDm HDd] HD. fold m in HDm. fold d in HDd.
    apply date_ltb_false_iff in HD. apply date_ltb_false_iff.
    unfold target; simpl.
    destruct (date_ltb (mkdate (year today) m d) today) eqn:E.
    - apply date_ltb_iff in E. simpl in E. lia.
    - lia. }
  destruct (@count_to_target today target (value b) Ht HT Hle) as (n & Hn & Hit & Hnext).
  { split; reflexivity. }
  { exact Hfirst. }
  exists n. rewrite Hcode, Hn. split; [reflexivity|]. split; [exact Hnext|].
  split; [|exact Hit].
  split.
  - intros ->. exact (proj1 Hnext).
  - intros Hsame. destruct n as [|n]; [reflexivity|].
    exfalso. apply (proj2 Hnext 0%nat); [lia|exact Hsame].
Qed.

End C8.

(** C8, as the program has it.  For every record and every valid date
    [today]: with no birthday set, [days_to_birthday] returns [None];
    with a birthday that is not on the 29th of February, and provided the
    year after [today]'s is still a year of [date] whenever this year's
    occurrence is already past, it returns the number [n] of days from
    today to the next day that falls on the birthday's month and day.
    [n] is 0 exactly when today is such a day, and the day reached is this
    year's occurrence, or next year's when this year's is past. *)
Theorem days_to_birthday_counts_days :
  forall (today : date) (r : _Record),
    valid_date today = true ->
    (birthday r = None -> days_to_birthday today r = Return None)
    /\ (forall b : _Birthday,
          birthday r = Some b ->
          valid_date (value b) = true ->
          ~ on_Feb_29 (value b) ->
          (date_ltb (mkdate (year today) (month (value b)) (day (value b))) today = true ->
           year today < MAXYEAR) ->
          exists n : nat,
            days_to_birthday today r = Return (Some (Z.of_nat n))
            /\ days_until_next (value b) today n
            /\ (n = 0%nat <-> same_month_day (value b) today)
            /\ Nat.iter n tomorrow today
               = mkdate (if date_ltb (mkdate (year today) (month (value b))
                                        (day (value b))) today
                         then year today + 1 else year today)
                        (month (value b)) (day (value b))).
Proof.
  intros today r Hvalid. split.
  - apply days_to_birthday_None.
  - intros b. now apply days_to_birthday_Some.
Qed.

(** The theorem at work on the 3rd of November 2026 for a birthday on the
    30th of September. *)
Lemma days_to_birthday_counts_days_witness :
  valid_date a_day = true
  /\ exists n : nat,
       days_to_birthday a_day alexander_born = Return (Some (Z.of_nat n))
       /\ days_until_next (mkdate 2022 9 30) a_day n
       /\ Nat.iter n tomorrow a_day = mkdate 2027 9 30.
Proof.
  split; [reflexivity|].
  destruct (proj2 (@days_to_birthday_counts_days a_day alexander_born eq_refl)
              (Field (mkdate 2022 9 30)) eq_refl eq_refl)
    as (n & H1 & H2 & _ & H3).
  - intros [H _]. discriminate H.
  - intros _. reflexivity.
  - exists n. split; [exact H1|]. split; [exact H2|exact H3].
Defined.

Example days_to_birthday_a_day :
  days_to_birthday a_day alexander_born = Return (Some 331).
Proof. reflexivity. Qed.

(** C8, as stated, fails: on the last day of year 9999 the next first of
    January is in no year of [date], and [days_to_birthday] raises. *)
Lemma days_to_birthday_raises_on_the_last_day : ~ days_to_birthday_as_stated.
Proof.
  intros H. specialize (H last_day new_year_child eq_refl). simpl in H.
  destruct H as [n [H _]].
  - reflexivity.
  - intros [H _]. discriminate H.
  - vm_compute in H. discriminate H.
Qed.

Example days_to_birthday_last_day :
  days_to_birthday last_day new_year_child
  = Raise (ValueError year_is_out_of_range).
Proof. reflexivity. Qed.

(** ** More on names and phones *)

(** Every string [name_value_pattern] matches, line feed included. *)
Lemma name_pattern_matches (s : str) :
  re_match name_value_pattern s = true
  <-> exists letters tail,
        s = letters ++ tail
        /\ (2 <= List.length letters <= 25)%nat
        /\ Forall (fun c => name_letter c = true) letters
        /\ line_end tail.
Proof.
  rewrite re_match_true. unfold name_value_pattern. split.
  - intros [t Ht]. apply run_Cat in Ht. destruct Ht as [u0 [H0 Ht]].
    apply run_Bol in H0. destruct H0 as [-> _].
    apply run_Cat in Ht. destruct Ht as [u1 [H1 Ht]].
    apply run_Rep in H1. destruct H1 as [k [Hk H1]].
    apply steps_Cls in H1. destruct H1 as [ls [Hl [Hls ->]]].
    apply run_Eol in Ht. destruct Ht as [-> He].
    exists ls, u1. subst k. auto.
  - intros [ls [tail [-> [Hl [Hls He]]]]]. exists tail.
    apply run_Cat. eexists. split; [apply run_Bol; split; reflexivity|].
    apply run_Cat. exists tail. split.
    + apply run_Rep. exists (List.length ls). split; [assumption|].
      apply steps_Cls. exists ls. auto.
    + apply run_Eol. auto.
Qed.

(** The half of C6 that holds: 2 to 25 letters of the class make a name. *)
Lemma name_of_letters_is_accepted (s : str) :
  (2 <= List.length s <= 25)%nat ->
  Forall (fun c => name_letter c = true) s ->
  _Name_new s = Return (Field s).
Proof.
  intros Hl Hs. unfold _Name_new, init, check_name.
  assert (H : re_match name_value_pattern s = true).
  { apply name_pattern_matches. exists s, []. rewrite app_nil_r.
    unfold line_end. auto. }
  now rewrite H.
Qed.

(** What C2 asks for does hold of [add_phone] and [del_phone]. *)
Lemma add_phone_keeps_distinct `{I : Interp} (phone : str) (r r' : _Record) :
  phones_distinct r -> add_phone phone r = (Return tt, r') -> phones_distinct r'.
Proof.
  unfold phones_distinct, add_phone, bind, pure, get, put, raise.
  rewrite check_phone_cases. intros Hd.
  destruct (re_match phone_pattern phone); [|discriminate].
  destruct (phone_in (Field phone) (phones r)) eqn:E; simpl; [discriminate|].
  intros [= <-]. simpl. rewrite map_app. simpl. apply NoDup_app.
  - assumption.
  - constructor; [simpl; tauto|constructor].
  - intros a Ha [<-|[]].
    assert (phone_in (Field phone) (phones r) = true) by now apply phone_in_value.
    congruence.
Qed.

Lemma list_remove_subset (p : _Phone) (ps : list _Phone) (v : str) :
  In v (map (@value _) (list_remove p ps)) -> In v (map (@value _) ps).
Proof.
  induction ps as [|q rest IH]; simpl; [tauto|].
  destruct (phone_eqb q p); simpl; tauto.
Qed.

Lemma del_phone_keeps_distinct `{I : Interp} (phone : str) (r r' : _Record) :
  phones_distinct r -> del_phone phone r = (Return tt, r') -> phones_distinct r'.
Proof.
  unfold phones_distinct, del_phone, bind, pure, get, put, raise.
  rewrite check_phone_cases. intros Hd.
  destruct (re_match phone_pattern phone); [|discriminate].
  destruct (phone_in (Field phone) (phones r)) eqn:E; simpl; [|discriminate].
  intros [= <-]. simpl. clear E. induction (phones r) as [|q rest IH]; simpl.
  - constructor.
  - inversion Hd as [|? ? Hq Hrest]; subst.
    destruct (phone_eqb q (Field phone)); [assumption|].
    simpl. constructor; [|now apply IH].
    intros Hin. apply Hq. eapply list_remove_subset. exact Hin.
Qed.

(** * Beyond the claims *)

(** ** The strings each field takes *)

(** X1.  [_Name] takes a string exactly when it is 2 to 25 letters of the
    class of the pattern, followed or not by one line feed; it stores the
    string as given, and refuses every other string with the [ValueError]
    of names. *)
Theorem name_accepts_exactly :
  forall s : str,
    (_Name_new s = Return (Field s) <-> name_shape s)
    /\ (_Name_new s = Return (Field s)
        \/ _Name_new s = Raise (ValueError Name_is_not_valid)).
Proof.
  intros s. unfold _Name_new, init, check_name.
  pose proof (name_pattern_matches s) as H. fold (name_shape s) in H.
  destruct (re_match name_value_pattern s); simpl.
  - split; [|now left]. split; [intros _; now apply H | reflexivity].
  - split; [|now right]. split; [discriminate|].
    intros Hs. apply H in Hs. discriminate Hs.
Qed.

(** X2.  [_Phone] takes a string exactly when it is, followed or not by
    one line feed, a bare string of 9 or 10 digits or a [+] and 10 to 15
    digits with single optional separators; it stores the string as
    given, line feed included. *)
Theorem phone_accepts_with_line_feed :
  forall (I : Interp) (s : str),
    (_Phone_new s = Return (Field s) <-> phone_shape s)
    /\ (_Phone_new s = Return (Field s)
        \/ _Phone_new s = Raise (ValueError Phone_number_is_not_valid)).
Proof.
  intros I s. rewrite check_phone_cases.
  assert (H : re_match phone_pattern s = true <-> phone_shape s).
  { rewrite phone_pattern_matches. unfold phone_shape. split.
    - intros [[gs [d [tail [-> [Hl [Hgs [Hd He]]]]]]] | [ds [tail [-> [Hl [Hds He]]]]]].
      + exists (43%N :: List.concat gs ++ [d]), tail. split.
        * simpl. now rewrite <- app_assoc.
        * split; [assumption|]. right. exists gs, d. repeat split; auto; lia.
      + exists ds, tail. split; [reflexivity|]. split; [assumption|].
        left. now split.
    - intros [body [tail [-> [He [[Hds Hl] | [gs [d [-> [Hgs [Hd Hl]]]]]]]]]].
      + right. exists body, tail. auto.
      + left. exists gs, d, tail. split.
        * simpl. now rewrite <- app_assoc.
        * repeat split; auto; lia. }
  destruct (re_match phone_pattern s).
  - split; [|now left]. split; [intros _; now apply H | reflexivity].
  - split; [|now right]. split; [discriminate|].
    intros Hs. apply H in Hs. discriminate Hs.
Qed.

(** A repetition without upper bound of one character class. *)
Lemma run_Rep_unbounded_Cls (len : nat) (p : char -> bool) (lo : nat) (s t : str) :
  In t (run len (Rep (Cls p) lo None) s)
  <-> exists pre, (lo <= List.length pre)%nat
                  /\ Forall (fun c => p c = true) pre /\ s = pre ++ t.
Proof.
  change (run len (Rep (Cls p) lo None) s)
    with (iter (run len (Cls p)) lo (lo + List.length s) s).
  rewrite iter_steps. split.
  - intros [k [Hk Hs]]. apply steps_Cls in Hs.
    destruct Hs as [pre [Hl [Hp ->]]]. exists pre. split; [lia|auto].
  - intros [pre [Hl [Hp ->]]]. exists (List.length pre). split.
    + rewrite length_app. lia.
    + apply steps_Cls. exists pre. auto.
Qed.

Lemma email_pattern_matches (s : str) :
  re_match email_pattern s = true <-> email_shape s.
Proof.
  rewrite re_match_true. unfold email_pattern, email_shape, plus, chr. split.
  - intros [t Ht]. apply run_Cat in Ht. destruct Ht as [u0 [H0 Ht]].
    apply run_Bol in H0. destruct H0 as [-> _].
    apply run_Cat in Ht. destruct Ht as [u1 [H1 Ht]].
    apply run_Rep_unbounded_Cls in H1. destruct H1 as [local [Hl [Hlocal ->]]].
    apply run_Cat in Ht. destruct Ht as [u2 [H2 Ht]].
    apply run_Cls in H2. destruct H2 as [c [-> Hc]]. apply N.eqb_eq in Hc. subst c.
    apply run_Cat in Ht. destruct Ht as [u3 [H3 Ht]].
    apply run_Rep_unbounded_Cls in H3. destruct H3 as [domain [Hd [Hdomain ->]]].
    apply run_Cat in Ht. destruct Ht as [u4 [H4 Ht]].
    apply run_Cls in H4. destruct H4 as [c [-> Hc]]. apply N.eqb_eq in Hc. subst c.
    apply run_Cat in Ht. destruct Ht as [u5 [H5 Ht]].
    apply run_Rep_unbounded_Cls in H5. destruct H5 as [tld [Htl [Htld ->]]].
    apply run_Eol in Ht. destruct Ht as [-> He].
    exists local, domain, tld, u5. split; [reflexivity|].
    split; [intros ->; simpl in Hl; lia|]. split; [assumption|].
    split; [intros ->; simpl in Hd; lia|]. auto.
  - intros (local & domain & tld & tail & -> & Hl & Hlocal & Hd & Hdomain
            & Htl & Htld & He).
    exists tail.
    apply run_Cat. eexists. split; [apply run_Bol; split; reflexivity|].
    apply run_Cat. exists ([64%N] ++ domain ++ [46%N] ++ tld ++ tail). split.
    { apply run_Rep_unbounded_Cls. exists local. split; [|auto].
      destruct local; [contradiction|simpl; lia]. }
    apply run_Cat. exists (domain ++ [46%N] ++ tld ++ tail). split.
    { apply run_Cls. exists 64%N. auto. }
    apply run_Cat. exists ([46%N] ++ tld ++ tail). split.
    { apply run_Rep_unbounded_Cls. exists domain. split; [|auto].
      destruct domain; [contradiction|simpl; lia]. }
    apply run_Cat. exists (tld ++ tail). split.
    { apply run_Cls. exists 46%N. auto. }
    apply run_Cat. exists tail. split.
    { apply run_Rep_unbounded_Cls. exists tld. auto. }
    apply run_Eol. auto.
Qed.

(** X3.  [_Email] takes a string exactly when it is a non-empty local
    part of letters, digits and [._%+-], an [@], a non-empty domain of
    letters, digits, dots and dashes, a dot and at least two letters,
    followed or not by one line feed; every other string is refused with
    the [ValueError] of addresses. *)
Theorem email_accepts_exactly :
  forall s : str,
    (_Email_new s = Return (Field s) <-> email_shape s)
    /\ (_Email_new s = Return (Field s)
        \/ _Email_new s = Raise (ValueError Provided_email_is_not_valid)).
Proof.
  intros s. unfold _Email_new, init, check_email.
  pose proof (email_pattern_matches s) as H.
  destruct (re_match email_pattern s); simpl.
  - split; [|now left]. split; [intros _; now apply H | reflexivity].
  - split; [|now right]. split; [discriminate|].
    intros Hs. apply H in Hs. discriminate Hs.
Qed.

(** ** Birthdays *)

Lemma date_new_Return (y m d : Z) (b : date) :
  date_new y m d = Return b <-> b = mkdate y m d /\ valid_date b = true.
Proof.
  split.
  - unfold date_new.
    destruct (negb (fits_C_int y && fits_C_int m && fits_C_int d)); [discriminate|].
    destruct ((MINYEAR <=? y) && (y <=? MAXYEAR)) eqn:Ey; [simpl|discriminate].
    destruct ((1 <=? m) && (m <=? 12)) eqn:Em; [simpl|discriminate].
    destruct ((1 <=? d) && (d <=? days_in_month y m)) eqn:Ed; [simpl|discriminate].
    intros [= <-]. split; [reflexivity|]. unfold valid_date; simpl.
    apply andb_true_iff in Ey, Em, Ed.
    destruct Ey as [-> ->], Em as [-> ->], Ed as [-> ->]. reflexivity.
  - intros [-> H]. now apply date_new_valid.
Qed.

Lemma date_new_Raise (y m d : Z) (e : exn) :
  date_new y m d = Raise e -> e <> ValueError Birthday_must_be_in_the_past.
Proof.
  unfold date_new.
  destruct (negb (fits_C_int y && fits_C_int m && fits_C_int d)); [intros [= <-]; discriminate|].
  destruct (negb ((MINYEAR <=? y) && (y <=? MAXYEAR))); [intros [= <-]; discriminate|].
  destruct (negb ((1 <=? m) && (m <=? 12))); [intros [= <-]; discriminate|].
  destruct (negb ((1 <=? d) && (d <=? days_in_month y m))); [intros [= <-]; discriminate|].
  discriminate.
Qed.

Section Birthdays.
Context {I : Interp}.

Lemma int_Raise (t : str) (e : exn) :
  int t = Raise e ->
  e = ValueError (invalid_literal_for_int t)
  \/ exists n, e = ValueError (exceeds_the_limit_for_integer_string n).
Proof.
  unfold int.
  destruct (match skip_spaces t with
            | [] => (1, skip_spaces t)
            | c :: rest =>
                if N.eqb c 43 then (1, rest)
                else if N.eqb c 45 then (-1, rest)
                else (1, skip_spaces t)
            end) as [sign rest].
  destruct (match rest with [] => false | c :: _ => N.eqb c 95 end);
    [intros [= <-]; now left|].
  destruct (scan_digits 0 0 false rest) as [[[v digits] tail]|];
    [|intros [= <-]; now left].
  destruct (Nat.ltb int_max_str_digits digits); [intros [= <-]; right; eauto|].
  destruct (Nat.eqb digits 0); [intros [= <-]; now left|].
  destruct (skip_spaces tail); [discriminate|intros [= <-]; now left].
Qed.

Lemma unpack3_ints_Return (tokens : list str) (a b c : Z) :
  unpack3_ints tokens = Return (a, b, c)
  <-> exists t1 t2 t3,
        tokens = [t1; t2; t3]
        /\ int t1 = Return a /\ int t2 = Return b /\ int t3 = Return c.
Proof.
  split.
  - destruct tokens as [|t1 [|t2 [|t3 [|t4 rest]]]]; simpl; try discriminate.
    + destruct (int t1); discriminate.
    + destruct (int t1); simpl; [|discriminate]. destruct (int t2); discriminate.
    + destruct (int t1) as [x|] eqn:E1; simpl; [|discriminate].
      destruct (int t2) as [y|] eqn:E2; simpl; [|discriminate].
      destruct (int t3) as [z|] eqn:E3; simpl; [|discriminate].
      intros [= -> -> ->]. now exists t1, t2, t3.
    + destruct (int t1); simpl; [|discriminate].
      destruct (int t2); simpl; [|discriminate].
      destruct (int t3); simpl; [|discriminate].
      destruct (int t4); discriminate.
  - intros (t1 & t2 & t3 & -> & H1 & H2 & H3). simpl.
    now rewrite H1, H2, H3.
Qed.

Lemma unpack3_ints_Raise (tokens : list str) (e : exn) :
  unpack3_ints tokens = Raise e -> e <> ValueError Birthday_must_be_in_the_past.
Proof.
  assert (Hint : forall t e', int t = Raise e' ->
                              e' <> ValueError Birthday_must_be_in_the_past).
  { intros t e' H. apply int_Raise in H. destruct H as [->|[n ->]]; discriminate. }
  destruct tokens as [|t1 [|t2 [|t3 [|t4 rest]]]]; simpl.
  - intros [= <-]. discriminate.
  - destruct (int t1) eqn:E; simpl; intros [= <-]; [discriminate|eauto].
  - destruct (int t1) eqn:E1; simpl; [|intros [= <-]; eauto].
    destruct (int t2) eqn:E2; simpl; intros [= <-]; [discriminate|eauto].
  - destruct (int t1) eqn:E1; simpl; [|intros [= <-]; eauto].
    destruct (int t2) eqn:E2; simpl; [|intros [= <-]; eauto].
    destruct (int t3) eqn:E3; simpl; [discriminate|intros [= <-]; eauto].
  - destruct (int t1) eqn:E1; simpl; [|intros [= <-]; eauto].
    destruct (int t2) eqn:E2; simpl; [|intros [= <-]; eauto].
    destruct (int t3) eqn:E3; simpl; [|intros [= <-]; eauto].
    destruct (int t4) eqn:E4; simpl; intros [= <-]; [discriminate|eauto].
Qed.

End Birthdays.

(** The tokens [re_split] gives, described without it. *)
Lemma birthday_separator_char (c : char) :
  birthday_separator c = true <-> separator_char c.
Proof.
  unfold birthday_separator, separator_char. simpl.
  rewrite !orb_true_iff, !N.eqb_eq. intuition congruence.
Qed.

Lemma birthday_separator_not_char (c : char) :
  birthday_separator c = false <-> ~ separator_char c.
Proof.
  rewrite <- birthday_separator_char. destruct (birthday_separator c); split; congruence.
Qed.

Lemma split_on_cons (p : char -> bool) (s cur : str) (tok : str) (toks : list str) :
  split_on p cur s = tok :: toks
  <-> (toks = [] /\ tok = rev cur ++ s /\ Forall (fun c => p c = false) s)
      \/ (exists t c rest,
            s = t ++ c :: rest /\ Forall (fun c => p c = false) t /\ p c = true
            /\ tok = rev cur ++ t /\ toks = split_on p [] rest).
Proof.
  revert cur. induction s as [|x s IH]; intros cur; simpl.
  - split.
    + intros [= <- <-]. left. rewrite app_nil_r. auto.
    + intros [(-> & -> & _)|(t & c & rest & H & _)].
      * now rewrite app_nil_r.
      * destruct t; discriminate H.
  - destruct (p x) eqn:E.
    + split.
      * intros [= <- <-]. right. exists [], x, s. rewrite app_nil_r. auto.
      * intros [(_ & _ & H)|(t & c & rest & H & Ht & Hc & -> & ->)].
        -- inversion H; congruence.
        -- destruct t as [|y t]; simpl in H.
           ++ injection H as <- <-. now rewrite app_nil_r.
           ++ injection H as <- _. inversion Ht; congruence.
    + rewrite IH. simpl. split.
      * intros [(-> & -> & H)|(t & c & rest & -> & Ht & Hc & -> & ->)].
        -- left. rewrite <- app_assoc. simpl. auto.
        -- right. exists (x :: t), c, rest. rewrite <- app_assoc. simpl. auto.
      * intros [(-> & -> & H)|(t & c & rest & H & Ht & Hc & -> & ->)].
        -- left. rewrite <- app_assoc. simpl. inversion H; auto.
        -- right. destruct t as [|y t]; simpl in H.
           ++ injection H as <- <-. congruence.
           ++ injection H as <- ->. inversion Ht; subst.
              exists t, c, rest. rewrite <- app_assoc. simpl. auto.
Qed.

Lemma split_on_nonempty (p : char -> bool) (s cur : str) :
  split_on p cur s <> [].
Proof.
  revert cur. induction s as [|x s IH]; intros cur; simpl; [discriminate|].
  destruct (p x); [discriminate|apply IH].
Qed.

Lemma re_split_three (p : char -> bool) (s t1 t2 t3 : str) :
  re_split p s = [t1; t2; t3]
  <-> exists c1 c2,
        s = t1 ++ c1 :: t2 ++ c2 :: t3
        /\ p c1 = true /\ p c2 = true
        /\ Forall (fun c => p c = false) (t1 ++ t2 ++ t3).
Proof.
  unfold re_split. rewrite split_on_cons. simpl. split.
  - intros [(H & _)|(t & c1 & rest & -> & Ht & Hc1 & -> & H)]; [discriminate H|].
    symmetry in H. apply split_on_cons in H. simpl in H.
    destruct H as [(H & _)|(t' & c2 & rest' & -> & Ht' & Hc2 & -> & H)];
      [discriminate H|].
    symmetry in H. apply split_on_cons in H. simpl in H.
    destruct H as [(_ & -> & Hr)|(t'' & c3 & rest'' & _ & _ & _ & _ & H)].
    + exists c1, c2. split; [reflexivity|]. split; [assumption|].
      split; [assumption|]. rewrite !Forall_app. auto.
    + exfalso. symmetry in H. now apply split_on_nonempty in H.
  - intros (c1 & c2 & -> & Hc1 & Hc2 & H). rewrite !Forall_app in H.
    destruct H as (H1 & H2 & H3).
    right. exists t1, c1, (t2 ++ c2 :: t3). split; [reflexivity|].
    split; [assumption|]. split; [assumption|]. split; [reflexivity|].
    symmetry. apply split_on_cons. simpl.
    right. exists t2, c2, t3. split; [reflexivity|].
    split; [assumption|]. split; [assumption|]. split; [reflexivity|].
    symmetry. apply split_on_cons. simpl. left. auto.
Qed.

Lemma birthday_parses_tokens {I : Interp} (s : str) (b : date) :
  birthday_parses s b <-> birthday_tokens s b.
Proof.
  unfold birthday_parses, birthday_tokens. split.
  - intros (t1 & c1 & t2 & c2 & t3 & d & m & y & Hs & H1 & H2 & Hno & Hrest).
    exists t1, t2, t3, d, m, y. split; [|exact Hrest].
    apply re_split_three. exists c1, c2. split; [exact Hs|].
    split; [now apply birthday_separator_char|].
    split; [now apply birthday_separator_char|].
    apply Forall_forall. intros c Hc. apply birthday_separator_not_char. auto.
  - intros (t1 & t2 & t3 & d & m & y & Hs & Hrest).
    apply re_split_three in Hs. destruct Hs as (c1 & c2 & Hs & H1 & H2 & Hno).
    exists t1, c1, t2, c2, t3, d, m, y. split; [exact Hs|].
    split; [now apply birthday_separator_char|].
    split; [now apply birthday_separator_char|].
    split; [|exact Hrest].
    intros c Hc. apply birthday_separator_not_char.
    rewrite Forall_forall in Hno. auto.
Qed.

Lemma birthday_accepts_tokens :
  forall (I : Interp) (today : date) (s : str),
    (forall b, _Birthday_new today s = Return (Field b)
               <-> birthday_tokens s b /\ date_ltb b today = true)
    /\ (_Birthday_new today s = Raise (ValueError Birthday_must_be_in_the_past)
        <-> exists b, birthday_tokens s b /\ date_ltb b today = false).
Proof.
  intros I today s. unfold _Birthday_new, init, check_birthday, birthday_tokens.
  destruct (unpack3_ints (re_split birthday_separator s)) as [[[d m] y]|e] eqn:Eu; simpl.
  - apply unpack3_ints_Return in Eu. destruct Eu as (t1 & t2 & t3 & Es & H1 & H2 & H3).
    destruct (date_new y m d) as [b0|e] eqn:Ed; simpl.
    + apply date_new_Return in Ed. destruct Ed as [Eb Hv].
      unfold date_leb. destruct (date_ltb b0 today) eqn:El; simpl.
      * split.
        -- intros b. split.
           ++ intros [= <-]. split; [|assumption].
              exists t1, t2, t3, d, m, y. auto 10.
           ++ intros [(u1 & u2 & u3 & d' & m' & y' & Es' & H1' & H2' & H3' & -> & _) _].
              rewrite Es in Es'. injection Es' as <- <- <-.
              rewrite H1 in H1'. rewrite H2 in H2'. rewrite H3 in H3'.
              injection H1' as <-. injection H2' as <-. injection H3' as <-.
              now rewrite Eb.
        -- split; [discriminate|].
           intros [b [(u1 & u2 & u3 & d' & m' & y' & Es' & H1' & H2' & H3' & -> & _) Hl]].
           rewrite Es in Es'. injection Es' as <- <- <-.
           rewrite H1 in H1'. rewrite H2 in H2'. rewrite H3 in H3'.
           injection H1' as <-. injection H2' as <-. injection H3' as <-.
           rewrite <- Eb in Hl. congruence.
      * split.
        -- intros b. split; [discriminate|].
           intros [(u1 & u2 & u3 & d' & m' & y' & Es' & H1' & H2' & H3' & -> & _) Hl].
           rewrite Es in Es'. injection Es' as <- <- <-.
           rewrite H1 in H1'. rewrite H2 in H2'. rewrite H3 in H3'.
           injection H1' as <-. injection H2' as <-. injection H3' as <-.
           rewrite <- Eb in Hl. congruence.
        -- split; [intros _|reflexivity].
           exists b0. split; [|assumption]. exists t1, t2, t3, d, m, y. auto 10.
    + assert (Hno : forall b, ~ (exists u1 u2 u3 d' m' y',
                re_split birthday_separator s = [u1; u2; u3]
                /\ int u1 = Return d' /\ int u2 = Return m' /\ int u3 = Return y'
                /\ b = mkdate y' m' d' /\ valid_date b = true)).
      { intros b (u1 & u2 & u3 & d' & m' & y' & Es' & H1' & H2' & H3' & -> & Hv).
        rewrite Es in Es'. injection Es' as <- <- <-.
        rewrite H1 in H1'. rewrite H2 in H2'. rewrite H3 in H3'.
        injection H1' as <-. injection H2' as <-. injection H3' as <-.
        rewrite (date_new_valid _ _ _ Hv) in Ed. discriminate Ed. }
      split.
      * intros b. split; [discriminate|]. intros [H _]. now apply Hno in H.
      * split.
        -- intros [= ->]. now apply date_new_Raise in Ed.
        -- intros [b [H _]]. now apply Hno in H.
  - assert (Hno : forall b, ~ (exists u1 u2 u3 d' m' y',
                re_split birthday_separator s = [u1; u2; u3]
                /\ int u1 = Return d' /\ int u2 = Return m' /\ int u3 = Return y'
                /\ b = mkdate y' m' d' /\ valid_date b = true)).
    { intros b (u1 & u2 & u3 & d' & m' & y' & Es' & H1' & H2' & H3' & _).
      assert (unpack3_ints (re_split birthday_separator s) = Return (d', m', y')).
      { apply unpack3_ints_Return. exists u1, u2, u3. auto. }
      congruence. }
    split.
    + intros b. split; [discriminate|]. intros [H _]. now apply Hno in H.
    + split.
      * intros [= ->]. now apply unpack3_ints_Raise in Eu.
      * intros [b [H _]]. now apply Hno in H.
Qed.

(** X4.  [_Birthday] takes a string and stores the date [b] exactly when
    the string is three tokens with one of the characters [-], [_], [\],
    [/] and [|] between them and none inside them, [int] reads the tokens
    as day, month and year, these make the valid date [b], and [b] is
    strictly before today.  It raises "Birthday must be in the past"
    exactly when the string makes, in that way, a valid date that is
    today or later; every other failure carries another exception. *)
Theorem birthday_accepts_exactly :
  forall (I : Interp) (today : date) (s : str),
    (forall b, _Birthday_new today s = Return (Field b)
               <-> birthday_parses s b /\ date_ltb b today = true)
    /\ (_Birthday_new today s = Raise (ValueError Birthday_must_be_in_the_past)
        <-> exists b, birthday_parses s b /\ date_ltb b today = false).
Proof.
  intros I today s.
  destruct (birthday_accepts_tokens I today s) as [Hret Hraise]. split.
  - intros b. rewrite Hret. now rewrite birthday_parses_tokens.
  - rewrite Hraise. split; intros [b [Hb Hl]]; exists b;
      (split; [now apply birthday_parses_tokens|exact Hl]).
Qed.

(** *** Printing a birthday and reading it back *)

Section Rendering.
Context {I : Interp}.

Lemma digit_char_cases (z : Z) :
  exists k : Z, 0 <= k < 10 /\ z mod 10 = k
                /\ digit_char z = N.add 48 (Z.to_N k).
Proof.
  exists (z mod 10). pose proof (Z.mod_pos_bound z 10). unfold digit_char. lia.
Qed.

Ltac each_digit z :=
  let k := fresh "k" in
  let Hk := fresh "Hk" in
  let Hz := fresh "Hz" in
  let Hc := fresh "Hc" in
  destruct (digit_char_cases z) as (k & Hk & Hz & Hc); rewrite Hc, ?Hz;
  clear Hz Hc;
  assert (k = 0 \/ k = 1 \/ k = 2 \/ k = 3 \/ k = 4 \/ k = 5 \/ k = 6
          \/ k = 7 \/ k = 8 \/ k = 9) as Hcases by lia;
  repeat (destruct Hcases as [Hcases|Hcases]); subst k.

Lemma digit_char_value (z : Z) : decimal_value (digit_char z) = Some (z mod 10).
Proof. each_digit z; reflexivity. Qed.

Lemma digit_char_no_space (z : Z) : is_space (digit_char z) = false.
Proof. each_digit z; reflexivity. Qed.

Lemma digit_char_no_separator (z : Z) : birthday_separator (digit_char z) = false.
Proof. each_digit z; reflexivity. Qed.

Lemma digit_char_plain (z : Z) :
  N.eqb (digit_char z) 95 = false /\ N.eqb (digit_char z) 43 = false
  /\ N.eqb (digit_char z) 45 = false.
Proof. each_digit z; repeat split; reflexivity. Qed.

Lemma digit_char_no_int_space (z : Z) : int_space (digit_char z) = false.
Proof. each_digit z; reflexivity. Qed.

Lemma scan_digit_chars (zs : list Z) (acc : Z) (digits : nat) (after_underscore : bool) :
  zs <> [] ->
  scan_digits acc digits after_underscore (map digit_char zs)
  = Some (number_of acc zs, (digits + List.length zs)%nat, []).
Proof.
  revert acc digits after_underscore.
  induction zs as [|z zs IH]; intros acc digits after_underscore Hne; [contradiction|].
  simpl. destruct (digit_char_plain z) as (-> & _ & _).
  rewrite digit_char_value. destruct zs as [|z' zs'].
  - simpl. do 3 f_equal. lia.
  - rewrite IH by discriminate. simpl. do 3 f_equal. lia.
Qed.

Lemma int_digit_chars (zs : list Z) :
  zs <> [] -> (List.length zs <= int_max_str_digits)%nat ->
  int (map digit_char zs) = Return (number_of 0 zs).
Proof.
  intros Hne Hlen. unfold int.
  destruct zs as [|z zs']; [contradiction|].
  change (map digit_char (z :: zs')) with (digit_char z :: map digit_char zs').
  cbn [skip_spaces]. rewrite digit_char_no_int_space.
  destruct (digit_char_plain z) as (H95 & H43 & H45).
  rewrite H43, H45. cbv beta iota. rewrite H95.
  change (digit_char z :: map digit_char zs') with (map digit_char (z :: zs')).
  rewrite scan_digit_chars by discriminate.
  cbn [Nat.add].
  destruct (Nat.ltb_spec int_max_str_digits (List.length (z :: zs'))) as [H|H]; [lia|].
  cbn [List.length Nat.eqb skip_spaces]. f_equal. lia.
Qed.

Lemma split_on_digit_chars (zs : list Z) (cur rest : str) :
  split_on birthday_separator cur (map digit_char zs ++ rest)
  = split_on birthday_separator (rev (map digit_char zs) ++ cur) rest.
Proof.
  revert cur. induction zs as [|z zs IH]; intros cur; simpl; [reflexivity|].
  rewrite digit_char_no_separator, IH. now rewrite <- app_assoc.
Qed.

Lemma split_on_token (zs : list Z) (rest : str) :
  split_on birthday_separator [] (map digit_char zs ++ 45%N :: rest)
  = map digit_char zs :: split_on birthday_separator [] rest.
Proof.
  rewrite split_on_digit_chars.
  change (split_on birthday_separator ?cur (45%N :: ?x))
    with (rev cur :: split_on birthday_separator [] x).
  now rewrite app_nil_r, rev_involutive.
Qed.

Lemma split_on_last_token (zs : list Z) :
  split_on birthday_separator [] (map digit_char zs) = [map digit_char zs].
Proof.
  rewrite <- (app_nil_r (map digit_char zs)) at 1. rewrite split_on_digit_chars.
  simpl. now rewrite app_nil_r, rev_involutive.
Qed.

Lemma strftime_splits (d m : Z) (ys : list Z) :
  re_split birthday_separator
    (map digit_char [d / 10; d] ++ 45%N :: map digit_char [m / 10; m] ++ 45%N
     :: map digit_char ys)
  = [map digit_char [d / 10; d]; map digit_char [m / 10; m]; map digit_char ys].
Proof.
  unfold re_split. now rewrite !split_on_token, split_on_last_token.
Qed.

End Rendering.

Lemma number_of_two_digits (z : Z) :
  0 <= z < 100 -> number_of 0 [z / 10; z] = z.
Proof.
  intros H. unfold number_of. cbn [fold_left].
  Z.div_mod_to_equations. lia.
Qed.

Lemma number_of_four_digits (y : Z) :
  1000 <= y <= 9999 -> number_of 0 [y / 1000; y / 100; y / 10; y / 1] = y.
Proof.
  intros H. unfold number_of. cbn [fold_left].
  Z.div_mod_to_equations. lia.
Qed.

(** X5.  What [str] prints for a birthday, given back to [_Birthday],
    makes the same birthday: for every valid date from the year 1000 on
    that is before today, the [DD-MM-YYYY] text of the date is taken and
    the date stored is the one printed. *)
Theorem birthday_str_reads_back :
  forall (I : Interp) (today b : date),
    valid_date b = true ->
    1000 <= year b ->
    date_ltb b today = true ->
    _Birthday_new today (_Birthday_str (Field b)) = Return (Field b).
Proof.
  intros I today [y m d] Hv Hy Hlt. simpl in Hy.
  assert (Hr : (1 <= y <= 9999) /\ (1 <= m <= 12) /\ (1 <= d <= 31)).
  { pose proof (valid_date_calendar _ Hv) as (_ & Hm & Hd). simpl in Hm, Hd.
    pose proof (days_in_month_bounds y m).
    revert Hv. unfold valid_date, MINYEAR, MAXYEAR; simpl. intros Hv.
    repeat (apply andb_true_iff in Hv; destruct Hv as [Hv ?]).
    repeat match goal with
           | H : (_ <=? _) = true |- _ => apply Z.leb_le in H
           end. lia. }
  destruct Hr as (Hyr & Hmr & Hdr).
  unfold _Birthday_new, init, check_birthday, _Birthday_str, strftime_dmY.
  cbn [value year month day].
  assert (Hk : (1000 <=? y) = true) by now apply Z.leb_le.
  rewrite Hk.
  change (two_digits d ++ [45%N] ++ two_digits m ++ [45%N]
          ++ map (fun k => digit_char (y / k)) [1000; 100; 10; 1])
    with (map digit_char [d / 10; d] ++ 45%N :: map digit_char [m / 10; m] ++ 45%N
          :: map digit_char [y / 1000; y / 100; y / 10; y / 1]).
  rewrite strftime_splits. unfold unpack3_ints.
  rewrite !int_digit_chars by (try discriminate; unfold int_max_str_digits; simpl; lia).
  rewrite !number_of_two_digits, number_of_four_digits by lia.
  cbv beta iota delta [obind].
  rewrite (date_new_valid _ _ _ Hv).
  unfold date_leb. now rewrite Hlt.
Qed.

(** The theorem at work on the 30th of September 2022. *)
Lemma birthday_str_reads_back_witness :
  _Birthday_str (Field (mkdate 2022 9 30)) = lit "30-09-2022"
  /\ _Birthday_new a_day (_Birthday_str (Field (mkdate 2022 9 30)))
     = Return (Field (mkdate 2022 9 30)).
Proof.
  split; [reflexivity|].
  apply (@birthday_str_reads_back ascii_interp a_day (mkdate 2022 9 30)).
  - reflexivity.
  - simpl. lia.
  - reflexivity.
Defined.

(** ** The phones of a record *)

Section Phones.
Context {I : Interp}.

Lemma list_remove_last (p : _Phone) (ps : list _Phone) :
  phone_in p ps = false -> list_remove p (ps ++ [p]) = ps.
Proof.
  unfold phone_in. induction ps as [|q rest IH]; simpl; intros H.
  - unfold phone_eqb. now rewrite str_eqb_refl.
  - apply orb_false_iff in H. destruct H as [-> H]. now rewrite IH.
Qed.

Lemma add_phone_returns (phone : str) (r r' : _Record) :
  add_phone phone r = (Return tt, r')
  <-> re_match phone_pattern phone = true
      /\ ~ In phone (map (@value _) (phones r))
      /\ r' = set_phones (phones r ++ [Field phone]) r.
Proof.
  unfold add_phone, bind, pure, get, put, raise. rewrite check_phone_cases.
  destruct (re_match phone_pattern phone); [|split; [discriminate|intros [H _]; discriminate H]].
  destruct (phone_in (Field phone) (phones r)) eqn:E; simpl.
  - apply phone_in_value in E. simpl in E.
    split; [discriminate|]. intros (_ & H & _). contradiction.
  - split.
    + intros [= <-]. split; [reflexivity|]. split; [|reflexivity].
      intros H. assert (phone_in (Field phone) (phones r) = true)
        by now apply phone_in_value.
      congruence.
    + intros (_ & _ & ->). reflexivity.
Qed.

Lemma del_phone_returns (phone : str) (r r' : _Record) :
  del_phone phone r = (Return tt, r')
  <-> re_match phone_pattern phone = true
      /\ In phone (map (@value _) (phones r))
      /\ r' = set_phones (list_remove (Field phone) (phones r)) r.
Proof.
  unfold del_phone, bind, pure, get, put, raise. rewrite check_phone_cases.
  destruct (re_match phone_pattern phone); [|split; [discriminate|intros [H _]; discriminate H]].
  destruct (phone_in (Field phone) (phones r)) eqn:E; simpl.
  - apply phone_in_value in E. simpl in E. split.
    + intros [= <-]. auto.
    + intros (_ & _ & ->). reflexivity.
  - split; [discriminate|]. intros (_ & H & _).
    assert (phone_in (Field phone) (phones r) = true) by now apply phone_in_value.
    congruence.
Qed.

End Phones.

(** X6.  A phone that [add_phone] has just added is taken away again by
    [del_phone]: when [add_phone(p)] returns, [del_phone(p)] on the
    record it leaves returns too and gives back the record as it was
    before the two calls. *)
Theorem add_then_del_phone_restores :
  forall (I : Interp) (phone : str) (r r1 : _Record),
    add_phone phone r = (Return tt, r1) ->
    del_phone phone r1 = (Return tt, r).
Proof.
  intros I phone r r1 Hadd. apply add_phone_returns in Hadd.
  destruct Hadd as (Hok & Hnew & ->). apply del_phone_returns.
  split; [assumption|]. split.
  - simpl. rewrite map_app, in_app_iff. right. now left.
  - simpl. rewrite list_remove_last.
    + now destruct r.
    + destruct (phone_in (Field phone) (phones r)) eqn:E; [|reflexivity].
      apply phone_in_value in E. contradiction.
Qed.

(** The theorem at work on the record of Alexander and [111111111]. *)
Lemma add_then_del_phone_restores_witness :
  add_phone (lit "111111111") alexander
  = (Return tt, set_phones [Field (lit "111111111")] alexander)
  /\ del_phone (lit "111111111") (set_phones [Field (lit "111111111")] alexander)
     = (Return tt, alexander).
Proof.
  assert (H : add_phone (lit "111111111") alexander
              = (Return tt, set_phones [Field (lit "111111111")] alexander))
    by reflexivity.
  split; [exact H|].
  exact (@add_then_del_phone_restores ascii_interp _ _ _ H).
Defined.

Section ChangePhone.
Context {I : Interp}.

Lemma change_phone_loop_missing (old_phone new_phone : str) (ps : list _Phone) :
  ~ In old_phone (map (@value _) ps) ->
  change_phone_loop old_phone new_phone ps
  = (Raise (KeyError (Phone_is_not_found old_phone)), ps).
Proof.
  induction ps as [|p rest IH]; simpl; intros H; [reflexivity|].
  destruct (str_eqb (value p) old_phone) eqn:E.
  - apply str_eqb_eq in E. tauto.
  - rewrite IH by tauto. reflexivity.
Qed.

Lemma change_phone_loop_found (old_phone new_phone : str) (ps : list _Phone) :
  In old_phone (map (@value _) ps) ->
  change_phone_loop old_phone new_phone ps
  = if re_match phone_pattern new_phone
    then (Return tt, replace_first old_phone new_phone ps)
    else (Raise (ValueError Phone_number_is_not_valid), ps).
Proof.
  induction ps as [|p rest IH]; simpl; intros H; [contradiction|].
  destruct (str_eqb (value p) old_phone) eqn:E.
  - unfold _Phone_set_value, assign, check_phone.
    now destruct (re_match phone_pattern new_phone).
  - apply str_eqb_neq in E. rewrite IH by tauto.
    now destruct (re_match phone_pattern new_phone).
Qed.

Lemma replace_first_place (old_phone new_phone : str) (ps : list _Phone) :
  In old_phone (map (@value _) ps) ->
  exists before after,
    map (@value _) ps = before ++ old_phone :: after
    /\ ~ In old_phone before
    /\ map (@value _) (replace_first old_phone new_phone ps)
       = before ++ new_phone :: after.
Proof.
  induction ps as [|p rest IH]; simpl; intros H; [contradiction|].
  destruct (str_eqb (value p) old_phone) eqn:E.
  - apply str_eqb_eq in E. exists [], (map (@value _) rest). simpl.
    rewrite E. auto.
  - apply str_eqb_neq in E. destruct IH as (before & after & H1 & H2 & H3); [tauto|].
    exists (value p :: before), after. simpl. rewrite H1, H3.
    split; [reflexivity|]. split; [|reflexivity]. intros [H0|H0]; tauto.
Qed.

Lemma replace_first_back (old_phone new_phone : str) (ps : list _Phone) :
  In old_phone (map (@value _) ps) ->
  ~ In new_phone (map (@value _) ps) ->
  replace_first new_phone old_phone (replace_first old_phone new_phone ps) = ps.
Proof.
  induction ps as [|p rest IH]; simpl; intros Hin Hnew; [contradiction|].
  destruct (str_eqb (value p) old_phone) eqn:E.
  - simpl. rewrite str_eqb_refl. apply str_eqb_eq in E. destruct p. simpl in E.
    now rewrite E.
  - apply str_eqb_neq in E. simpl.
    assert (E' : str_eqb (value p) new_phone = false) by (apply str_eqb_neq; tauto).
    rewrite E', IH by tauto. reflexivity.
Qed.

Lemma set_phones_same (r : _Record) : set_phones (phones r) r = r.
Proof. now destruct r. Qed.

Lemma change_phone_found (old_phone new_phone : str) (r : _Record) :
  In old_phone (map (@value _) (phones r)) ->
  change_phone old_phone new_phone r
  = (if re_match phone_pattern new_phone
     then (Return tt, set_phones (replace_first old_phone new_phone (phones r)) r)
     else (Raise (ValueError Phone_number_is_not_valid), r)).
Proof.
  intros Hin. unfold change_phone. rewrite change_phone_loop_found by assumption.
  destruct (re_match phone_pattern new_phone); [reflexivity|].
  now rewrite set_phones_same.
Qed.

End ChangePhone.

(** X7.  [change_phone(old, new)] looks for [old] as it is given, among
    the values of the stored phones.  If it is there and [new] is a
    well-formed phone, the call returns and only the first phone with
    value [old] has changed, into [new], at its place in the list; if it
    is there and [new] is not well-formed, the call raises the
    [ValueError] of the validation; if it is not there, the call raises
    the [KeyError] of a phone not found, whatever [new] is. *)
Theorem change_phone_spec :
  forall (I : Interp) (old_phone new_phone : str) (r : _Record),
    (In old_phone (map (@value _) (phones r)) ->
       change_phone old_phone new_phone r
       = (if re_match phone_pattern new_phone
          then (Return tt, set_phones (replace_first old_phone new_phone (phones r)) r)
          else (Raise (ValueError Phone_number_is_not_valid), r))
       /\ exists before after,
            map (@value _) (phones r) = before ++ old_phone :: after
            /\ ~ In old_phone before
            /\ map (@value _) (replace_first old_phone new_phone (phones r))
               = before ++ new_phone :: after)
    /\ (~ In old_phone (map (@value _) (phones r)) ->
          change_phone old_phone new_phone r
          = (Raise (KeyError (Phone_is_not_found old_phone)), r)).
Proof.
  intros I old_phone new_phone r. split.
  - intros Hin. split; [now apply change_phone_found|now apply replace_first_place].
  - intros Hout. unfold change_phone.
    rewrite change_phone_loop_missing by assumption.
    now rewrite set_phones_same.
Qed.

(** The theorem at work: the second of three phones is changed. *)
Lemma change_phone_spec_witness :
  let r := set_phones [Field (lit "111111111"); Field (lit "111111112");
                       Field (lit "111111113")] alexander in
  change_phone (lit "111111112") (lit "111111114") r
  = (Return tt, set_phones [Field (lit "111111111"); Field (lit "111111114");
                            Field (lit "111111113")] alexander)
  /\ change_phone (lit "111111115") (lit "111111114") r
     = (Raise (KeyError (Phone_is_not_found (lit "111111115"))), r).
Proof.
  cbv zeta.
  pose proof (@change_phone_spec ascii_interp (lit "111111112") (lit "111111114")
    (set_phones [Field (lit "111111111"); Field (lit "111111112");
                 Field (lit "111111113")] alexander)) as [H1 _].
  pose proof (@change_phone_spec ascii_interp (lit "111111115") (lit "111111114")
    (set_phones [Field (lit "111111111"); Field (lit "111111112");
                 Field (lit "111111113")] alexander)) as [_ H2].
  split.
  - apply H1. simpl. tauto.
  - apply H2. simpl. intros [H|[H|[H|[]]]]; discriminate H.
Defined.

(** X8.  Changing a phone and changing it back leaves the record as it
    was: when [old] is stored, [new] is not, and both are well-formed,
    [change_phone(old, new)] followed by [change_phone(new, old)] returns
    twice and gives back the record. *)
Theorem change_phone_there_and_back :
  forall (I : Interp) (old_phone new_phone : str) (r : _Record),
    In old_phone (map (@value _) (phones r)) ->
    ~ In new_phone (map (@value _) (phones r)) ->
    re_match phone_pattern old_phone = true ->
    re_match phone_pattern new_phone = true ->
    result_of (change_phone old_phone new_phone) r = Return tt
    /\ change_phone new_phone old_phone
         (state_after (change_phone old_phone new_phone) r)
       = (Return tt, r).
Proof.
  intros I old_phone new_phone r Hin Hnew Hold Hok.
  unfold result_of, state_after.
  rewrite (change_phone_found old_phone new_phone r Hin), Hok. simpl.
  split; [reflexivity|].
  rewrite change_phone_found, Hold.
  - simpl. rewrite replace_first_back by assumption.
    now destruct r.
  - simpl. destruct (replace_first_place old_phone new_phone (phones r) Hin)
      as (before & after & _ & _ & ->).
    rewrite in_app_iff. right. now left.
Qed.

(** The theorem at work on the record of Alexander with one phone. *)
Lemma change_phone_there_and_back_witness :
  let r := set_phones [Field (lit "111111111")] alexander in
  change_phone (lit "111111112") (lit "111111111")
    (state_after (change_phone (lit "111111111") (lit "111111112")) r)
  = (Return tt, r).
Proof.
  cbv zeta.
  apply (@change_phone_there_and_back ascii_interp (lit "111111111") (lit "111111112")).
  - simpl. tauto.
  - simpl. intros [H|[]]. discriminate H.
  - reflexivity.
  - reflexivity.
Defined.

Section DelPhone.
Context {I : Interp}.

Lemma list_remove_distinct (p : str) (ps : list _Phone) :
  NoDup (map (@value _) ps) ->
  map (@value _) (list_remove (Field p) ps)
  = remove (list_eq_dec N.eq_dec) p (map (@value _) ps).
Proof.
  induction ps as [|q rest IH]; simpl; intros Hd; [reflexivity|].
  inversion Hd as [|? ? Hq Hrest]; subst. unfold phone_eqb at 1. simpl.
  destruct (list_eq_dec N.eq_dec p (value q)) as [E|E].
  - subst p. rewrite str_eqb_refl. symmetry. now apply notin_remove.
  - assert (E' : str_eqb (value q) p = false) by (apply str_eqb_neq; congruence).
    rewrite E'. simpl. now rewrite IH.
Qed.

End DelPhone.

(** X9.  In a record whose phones are pairwise distinct, [del_phone(p)]
    that returns has taken [p] out and left the other phones as they
    were, in their order; [p] is then the value of no stored phone, and
    name, birthday and email are untouched. *)
Theorem del_phone_removes :
  forall (I : Interp) (phone : str) (r r' : _Record),
    phones_distinct r ->
    del_phone phone r = (Return tt, r') ->
    map (@value _) (phones r')
    = remove (list_eq_dec N.eq_dec) phone (map (@value _) (phones r))
    /\ ~ In phone (map (@value _) (phones r'))
    /\ name r' = name r /\ birthday r' = birthday r /\ email r' = email r.
Proof.
  intros I phone r r' Hd Hdel. apply del_phone_returns in Hdel.
  destruct Hdel as (_ & _ & ->). simpl.
  rewrite list_remove_distinct by exact Hd.
  split; [reflexivity|]. split; [apply remove_In|]. auto.
Qed.

(** The theorem at work: the second of three phones is deleted. *)
Lemma del_phone_removes_witness :
  let r := set_phones [Field (lit "111111111"); Field (lit "111111112");
                       Field (lit "111111113")] alexander in
  phones_distinct r
  /\ map (@value _) (phones (state_after (del_phone (lit "111111112")) r))
     = [lit "111111111"; lit "111111113"].
Proof.
  cbv zeta.
  assert (Hd : phones_distinct
                 (set_phones [Field (lit "111111111"); Field (lit "111111112");
                              Field (lit "111111113")] alexander)).
  { unfold phones_distinct. simpl. repeat constructor; simpl.
    - intros [H|[H|[]]]; discriminate H.
    - intros [H|[]]; discriminate H.
    - tauto. }
  split; [exact Hd|].
  destruct (@del_phone_removes ascii_interp (lit "111111112") _
              (state_after (del_phone (lit "111111112"))
                 (set_phones [Field (lit "111111111"); Field (lit "111111112");
                              Field (lit "111111113")] alexander))
              Hd eq_refl) as [H _].
  rewrite H. reflexivity.
Defined.

(** ** What a series of calls keeps *)

Section Invariants.
Context {I : Interp}.

Lemma call_atomic (c : record_call) :
  atomic (call c).
Proof.
  destruct c; simpl.
  - apply add_phone_atomic.
  - apply change_phone_atomic.
  - apply del_phone_atomic.
  - apply set_birthday_atomic.
  - intros s e s'. discriminate.
  - apply set_email_atomic.
  - intros s e s'. discriminate.
Qed.

Lemma call_keeps_distinct (c : record_call) (r : _Record) :
  is_change_phone c = false ->
  phones_distinct r -> phones_distinct (state_after (call c) r).
Proof.
  intros Hc Hd. unfold state_after.
  destruct (call c r) as [[[]|e] r'] eqn:H; simpl.
  - destruct c as [p|o nw|p|td bs| |em| ]; simpl in *; try discriminate.
    + eapply add_phone_keeps_distinct; eassumption.
    + eapply del_phone_keeps_distinct; eassumption.
    + revert H. unfold set_birthday, bind, pure, get, put.
      destruct (_Birthday_new td bs); [|discriminate].
      intros [= <-]. exact Hd.
    + revert H. unfold del_birthday, bind, get, put. intros [= <-]. exact Hd.
    + revert H. unfold set_email, bind, pure, get, put.
      destruct (_Email_new em); [|discriminate].
      intros [= <-]. exact Hd.
    + revert H. unfold del_email, bind, get, put. intros [= <-]. exact Hd.
  - apply call_atomic in H. now subst r'.
Qed.

Lemma replace_first_valid (old_phone new_phone : str) (ps : list _Phone) :
  re_match phone_pattern new_phone = true ->
  Forall (fun p => re_match phone_pattern (value p) = true) ps ->
  Forall (fun p => re_match phone_pattern (value p) = true)
    (replace_first old_phone new_phone ps).
Proof.
  intros Hn H. induction H as [|p rest Hp Hrest IH]; simpl; [constructor|].
  destruct (str_eqb (value p) old_phone); constructor; assumption.
Qed.

Lemma list_remove_valid (q : _Phone) (ps : list _Phone) :
  Forall (fun p => re_match phone_pattern (value p) = true) ps ->
  Forall (fun p => re_match phone_pattern (value p) = true) (list_remove q ps).
Proof.
  intros H. induction H as [|p rest Hp Hrest IH]; simpl; [constructor|].
  destruct (phone_eqb p q); [assumption|now constructor].
Qed.

Lemma check_birthday_valid (today : date) (s : str) (d : date) :
  check_birthday today s = Return d -> valid_date d = true.
Proof.
  unfold check_birthday.
  destruct (unpack3_ints (re_split birthday_separator s)) as [[[a b] c]|]; simpl;
    [|discriminate].
  destruct (date_new c b a) as [d0|] eqn:E; simpl; [|discriminate].
  destruct (date_leb today d0); [discriminate|]. intros [= <-].
  now apply date_new_Return in E.
Qed.

Lemma call_keeps_valid (c : record_call) (r : _Record) :
  fields_valid r ->
  fields_valid (state_after (call c) r) /\ name (state_after (call c) r) = name r.
Proof.
  intros Hv. unfold state_after.
  destruct (call c r) as [[[]|e] r'] eqn:H; simpl.
  2:{ apply call_atomic in H. subst r'. auto. }
  destruct Hv as (Hn & Hp & He & Hb).
  destruct c as [p|old_phone new_phone|p|td bs| |em| ]; simpl in H.
  - apply add_phone_returns in H. destruct H as (Hok & _ & ->).
    split; [|reflexivity]. repeat split; simpl; auto.
    apply Forall_app. split; [assumption|]. now repeat constructor.
  - destruct (in_dec (list_eq_dec N.eq_dec) old_phone (map (@value _) (phones r)))
      as [Hin|Hout].
    + rewrite (change_phone_found old_phone new_phone r Hin) in H.
      destruct (re_match phone_pattern new_phone) eqn:E; [|discriminate].
      injection H as <-. split; [|reflexivity]. repeat split; simpl; auto.
      now apply replace_first_valid.
    + exfalso. revert H. unfold change_phone.
      rewrite change_phone_loop_missing by assumption. discriminate.
  - apply del_phone_returns in H. destruct H as (_ & _ & ->).
    split; [|reflexivity]. repeat split; simpl; auto.
    now apply list_remove_valid.
  - revert H. unfold set_birthday, bind, pure, get, put, _Birthday_new, init.
    destruct (check_birthday td bs) as [d|] eqn:E; simpl; [|discriminate].
    intros [= <-]. split; [|reflexivity]. repeat split; simpl; auto.
    intros b [= <-]. simpl. eapply check_birthday_valid. exact E.
  - revert H. unfold del_birthday, bind, get, put. intros [= <-].
    split; [|reflexivity]. repeat split; simpl; auto.
    discriminate.
  - revert H. unfold set_email, bind, pure, get, put, _Email_new, init, check_email.
    destruct (re_match email_pattern em) eqn:E; simpl; [|discriminate].
    intros [= <-]. split; [|reflexivity]. repeat split; simpl; auto.
    intros e [= <-]. exact E.
  - revert H. unfold del_email, bind, get, put. intros [= <-].
    split; [|reflexivity]. repeat split; simpl; auto.
    discriminate.
Qed.

End Invariants.

(** X10.  As long as [change_phone] is not called, the phones of a
    record stay pairwise distinct: after any series of calls of
    [add_phone], [del_phone], [set_birthday], [del_birthday], [set_email]
    and [del_email] on a new record, returning or raising, no two stored
    phones have the same value. *)
Theorem phones_stay_distinct_without_change_phone :
  forall (I : Interp) (n : str) (r0 : _Record) (cs : list record_call),
    _Record_new n = Return r0 ->
    forallb (fun c => negb (is_change_phone c)) cs = true ->
    phones_distinct (calls cs r0).
Proof.
  intros I n r0 cs Hnew Hcs.
  assert (H0 : phones_distinct r0).
  { revert Hnew. unfold _Record_new, _Name_new, init.
    destruct (check_name n); simpl; [|discriminate].
    intros [= <-]. constructor. }
  clear Hnew. revert r0 H0. unfold calls.
  induction cs as [|c cs IH]; intros r0 H0; simpl; [exact H0|].
  simpl in Hcs. apply andb_true_iff in Hcs. destruct Hcs as [Hc Hcs].
  apply IH; [exact Hcs|]. apply call_keeps_distinct; [|exact H0].
  now destruct (is_change_phone c).
Qed.

(** The theorem at work on a new record and four calls, one of which
    raises. *)
Lemma phones_stay_distinct_without_change_phone_witness :
  phones_distinct
    (calls [Add_phone (lit "111111111"); Add_phone (lit "111111111");
            Add_phone (lit "111111112"); Del_phone (lit "111111111")] alexander).
Proof.
  apply (@phones_stay_distinct_without_change_phone ascii_interp (lit "Alexander")).
  - reflexivity.
  - reflexivity.
Defined.

(** X11.  Whatever is called on a record, in whatever order and whether
    the calls return or raise, the record keeps the name it was made
    with, and every value it stores is one its field takes: the name
    matches the pattern of names, every phone the pattern of phones, the
    email, when there is one, the pattern of addresses, and the birthday,
    when there is one, is a valid date. *)
Theorem record_fields_stay_valid :
  forall (I : Interp) (n : str) (r0 : _Record) (cs : list record_call),
    _Record_new n = Return r0 ->
    fields_valid (calls cs r0) /\ value (name (calls cs r0)) = n.
Proof.
  intros I n r0 cs Hnew.
  assert (H0 : fields_valid r0 /\ value (name r0) = n).
  { revert Hnew. unfold _Record_new, _Name_new, init, check_name.
    destruct (re_match name_value_pattern n) eqn:E; simpl; [|discriminate].
    intros [= <-]. split; [|reflexivity].
    repeat split; simpl; auto; discriminate. }
  clear Hnew. revert r0 H0. unfold calls.
  induction cs as [|c cs IH]; intros r0 [Hv Hn]; simpl; [auto|].
  apply IH. destruct (call_keeps_valid c Hv) as [Hv' Hn'].
  split; [exact Hv'|]. now rewrite Hn'.
Qed.

(** The theorem at work on a new record and calls of every method. *)
Lemma record_fields_stay_valid_witness :
  let r := calls [Add_phone (lit "111111111"); Change_phone (lit "111111111") (lit "abc");
                  Set_birthday a_day (lit "30-09-2022"); Set_email (lit "abcdef@gmail.com");
                  Del_phone (lit "111111112"); Del_birthday; Del_email] alexander in
  fields_valid r /\ value (name r) = lit "Alexander".
Proof.
  cbv zeta.
  apply (@record_fields_stay_valid ascii_interp (lit "Alexander")).
  reflexivity.
Defined.

(** ** More on the days to the birthday *)

Lemma valid_date_ranges (d : date) :
  valid_date d = true ->
  1 <= year d <= 9999 /\ 1 <= month d <= 12
  /\ 1 <= day d <= days_in_month (year d) (month d).
Proof.
  unfold valid_date, MINYEAR, MAXYEAR. intros H.
  repeat (apply andb_true_iff in H; destruct H as [H ?]).
  repeat match goal with
         | H : (_ <=? _) = true |- _ => apply Z.leb_le in H
         end.
  lia.
Qed.

Lemma valid_date_of_ranges (y m d : Z) :
  1 <= y <= 9999 -> 1 <= m <= 12 -> 1 <= d <= days_in_month y m ->
  valid_date (mkdate y m d) = true.
Proof.
  intros Hy Hm Hd. unfold valid_date, MINYEAR, MAXYEAR; simpl.
  repeat (apply andb_true_iff; split); apply Z.leb_le; lia.
Qed.

Lemma fits_C_int_small (z : Z) : -10000 <= z <= 10000 -> fits_C_int z = true.
Proof.
  intros H. unfold fits_C_int. apply andb_true_iff.
  rewrite Z.leb_le, Z.ltb_lt. lia.
Qed.

Lemma date_new_year_10000 (m d : Z) :
  1 <= m <= 12 -> 1 <= d <= 31 ->
  date_new 10000 m d = Raise (ValueError year_is_out_of_range).
Proof.
  intros Hm Hd. unfold date_new.
  rewrite !fits_C_int_small by lia. reflexivity.
Qed.

Lemma date_new_bad_day (y m d : Z) :
  1 <= y <= 9999 -> 1 <= m <= 12 -> -1 <= d <= 31 ->
  ~ (1 <= d <= days_in_month y m) ->
  date_new y m d = Raise (ValueError day_is_out_of_range_for_month).
Proof.
  intros Hy Hm Hd Hbad. unfold date_new, MINYEAR, MAXYEAR.
  rewrite !fits_C_int_small by lia. simpl.
  assert (H1 : (1 <=? y) && (y <=? 9999) = true)
    by (apply andb_true_iff; rewrite !Z.leb_le; lia).
  assert (H2 : (1 <=? m) && (m <=? 12) = true)
    by (apply andb_true_iff; rewrite !Z.leb_le; lia).
  assert (H3 : (1 <=? d) && (d <=? days_in_month y m) = false).
  { apply andb_false_iff. rewrite !Z.leb_gt. lia. }
  now rewrite H1, H2, H3.
Qed.

Lemma is_leap_next_year (y : Z) : is_leap y = true -> is_leap (y + 1) = false.
Proof.
  unfold is_leap. intros H. apply andb_true_iff in H. destruct H as [H _].
  apply Z.eqb_eq in H. apply andb_false_iff. left. apply Z.eqb_neq.
  Z.div_mod_to_equations. lia.
Qed.

Lemma days_before_month_years (y y' m : Z) :
  days_before_month y' m - days_before_month y m
  = (if (2 <? m) && is_leap y' then 1 else 0)
    - (if (2 <? m) && is_leap y then 1 else 0).
Proof. unfold days_before_month. lia. Qed.

Section DaysToBirthday.
Variable today : date.
Hypothesis today_valid : valid_date today = true.

(** What [days_to_birthday] computes for a birthday that is not on the
    29th of February. *)
Lemma days_to_birthday_plain (r : _Record) (b : _Birthday) :
  birthday r = Some b ->
  valid_date (value b) = true ->
  ~ on_Feb_29 (value b) ->
  days_to_birthday today r
  = if date_ltb (mkdate (year today) (month (value b)) (day (value b))) today
    then if year today <? MAXYEAR
         then Return (Some (days_between
                              (mkdate (year today + 1) (month (value b)) (day (value b)))
                              today))
         else Raise (ValueError year_is_out_of_range)
    else Return (Some (days_between
                         (mkdate (year today) (month (value b)) (day (value b)))
                         today)).
Proof.
  intros Hb Hv Hfeb.
  destruct (valid_date_ranges _ today_valid) as (Hty & _ & _).
  destruct (valid_date_ranges _ Hv) as (_ & Hm & Hd).
  set (m := month (value b)) in *. set (d := day (value b)) in *.
  assert (Hday : forall y, 1 <= d <= days_in_month y m).
  { intros y. split; [lia|].
    apply (@days_in_month_other_year (year (value b))); [exact Hfeb | lia]. }
  unfold days_to_birthday. rewrite Hb. unfold replace_year. fold m d.
  rewrite (date_new_valid _ _ _ (valid_date_of_ranges Hty Hm (Hday _))). simpl.
  destruct (date_ltb (mkdate (year today) m d) today); simpl; [|reflexivity].
  unfold MAXYEAR. destruct (Z.ltb_spec (year today) 9999).
  - rewrite date_new_valid; [reflexivity|].
    apply valid_date_of_ranges; [lia|exact Hm|apply Hday].
  - assert (E : year today + 1 = 10000) by lia. rewrite E.
    pose proof (days_in_month_bounds 10000 m). specialize (Hday 10000).
    rewrite date_new_year_10000 by lia. reflexivity.
Qed.

Lemma days_to_birthday_plain_bounds (r : _Record) (b : _Birthday) (z : Z) :
  birthday r = Some b ->
  valid_date (value b) = true ->
  ~ on_Feb_29 (value b) ->
  days_to_birthday today r = Return (Some z) ->
  0 <= z <= 365.
Proof.
  intros Hb Hv Hfeb. rewrite (days_to_birthday_plain r Hb Hv Hfeb).
  destruct (valid_date_ranges _ today_valid) as (Hty & Htm & Htd).
  destruct (valid_date_ranges _ Hv) as (_ & Hm & Hd).
  pose proof (valid_date_calendar _ today_valid) as Hcal.
  set (m := month (value b)) in *. set (d := day (value b)) in *.
  assert (Hday : forall y, 1 <= d <= days_in_month y m).
  { intros y. split; [lia|].
    apply (@days_in_month_other_year (year (value b))); [exact Hfeb | lia]. }
  assert (Hc : forall y, 1 <= y -> calendar_date (mkdate y m d)).
  { intros y Hy. unfold calendar_date; simpl. auto. }
  pose proof (day_of_year_bounds Hcal) as Dt.
  destruct (date_ltb (mkdate (year today) m d) today) eqn:E.
  - destruct (year today <? MAXYEAR); [|discriminate]. intros [= <-].
    pose proof (toordinal_lt (Hc (year today) (proj1 Hty)) Hcal E) as H0.
    unfold days_between, toordinal in *; simpl in *.
    rewrite days_before_year_succ.
    pose proof (days_before_month_years (year today) (year today + 1) m) as Hdm.
    pose proof (is_leap_next_year (year today)) as Hleap.
    pose proof (proj1 (month_within_year (year today + 1) Hm)) as Hpos.
    unfold days_in_year in *.
    destruct (2 <? m), (is_leap (year today)), (is_leap (year today + 1));
      simpl in Hdm; try (specialize (Hleap eq_refl); discriminate Hleap); lia.
  - intros [= <-].
    pose proof (toordinal_le Hcal (Hc (year today) (proj1 Hty)) E) as H0.
    pose proof (day_of_year_bounds (Hc (year today) (proj1 Hty))) as Db.
    unfold days_between, toordinal, days_in_year in *; simpl in *.
    destruct (is_leap (year today)); lia.
Qed.

End DaysToBirthday.

(** X12.  For a birthday that is not on the 29th of February,
    [days_to_birthday] raises in one case only, with the [ValueError] of
    a year out of range: when today is in the year 9999 and this year's
    occurrence is past.  In every other case it returns a number of days
    between 0 and 365. *)
Theorem days_to_birthday_range :
  forall (today : date) (r : _Record) (b : _Birthday),
    valid_date today = true ->
    birthday r = Some b ->
    valid_date (value b) = true ->
    ~ on_Feb_29 (value b) ->
    (days_to_birthday today r = Raise (ValueError year_is_out_of_range)
     /\ year today = MAXYEAR
     /\ date_ltb (mkdate (year today) (month (value b)) (day (value b))) today = true)
    \/ (exists z, days_to_birthday today r = Return (Some z) /\ 0 <= z <= 365).
Proof.
  intros today r b Ht Hb Hv Hfeb.
  pose proof (@days_to_birthday_plain today Ht r b Hb Hv Hfeb) as Hcode.
  destruct (valid_date_ranges _ Ht) as (Hty & _ & _).
  destruct (date_ltb (mkdate (year today) (month (value b)) (day (value b))) today)
    eqn:E.
  - unfold MAXYEAR in *. destruct (Z.ltb_spec (year today) 9999).
    + right. eexists. split; [exact Hcode|].
      exact (@days_to_birthday_plain_bounds today Ht r b _ Hb Hv Hfeb Hcode).
    + left. split; [exact Hcode|]. split; [lia|reflexivity].
  - right. eexists. split; [exact Hcode|].
    exact (@days_to_birthday_plain_bounds today Ht r b _ Hb Hv Hfeb Hcode).
Qed.

(** The theorem at work on the record of Alexander. *)
Lemma days_to_birthday_range_witness :
  exists z, days_to_birthday a_day alexander_born = Return (Some z) /\ 0 <= z <= 365.
Proof.
  destruct (@days_to_birthday_range a_day alexander_born (Field (mkdate 2022 9 30))
              eq_refl eq_refl eq_refl) as [[H _]|H].
  - intros [H _]. discriminate H.
  - discriminate H.
  - exact H.
Defined.

Lemma days_in_february (y : Z) :
  days_in_month y 2 = if is_leap y then 29 else 28.
Proof. reflexivity. Qed.

(** X13.  For a birthday on the 29th of February, [days_to_birthday]
    does the following.  In a leap year it returns the days to the 29th
    of February of that year, and raises [ValueError] once that day is
    past.  In another year it raises [ValueError] on the 1st, 30th and
    31st of any month; on the other days it returns 30 in January, and
    from February on it returns the days to the 29th of February of the
    next year when that year is a leap year of [date], and raises
    [ValueError] when it is not or is past the year 9999. *)
Theorem days_to_birthday_on_Feb_29 :
  forall (today : date) (r : _Record) (b : _Birthday),
    valid_date today = true ->
    birthday r = Some b ->
    valid_date (value b) = true ->
    on_Feb_29 (value b) ->
    days_to_birthday today r
    = if is_leap (year today) then
        if date_ltb (mkdate (year today) 2 29) today
        then Raise (ValueError day_is_out_of_range_for_month)
        else Return (Some (days_between (mkdate (year today) 2 29) today))
      else if (day today =? 1) || (30 <=? day today)
      then Raise (ValueError day_is_out_of_range_for_month)
      else if month today =? 1 then Return (Some 30)
      else if year today =? 9999 then Raise (ValueError year_is_out_of_range)
      else if is_leap (year today + 1)
      then Return (Some (days_between (mkdate (year today + 1) 2 29) today))
      else Raise (ValueError day_is_out_of_range_for_month).
Proof.
  intros today r b Ht Hb Hv [Hm Hd].
  destruct (valid_date_ranges _ Ht) as (Hty & Htm & Htd).
  pose proof (days_in_month_bounds (year today) (month today)) as Hdim.
  unfold days_to_birthday. rewrite Hb. unfold replace_year, replace_year_day.
  rewrite Hm, Hd.
  destruct (is_leap (year today)) eqn:El.
  - (* a leap year *)
    assert (Hv29 : valid_date (mkdate (year today) 2 29) = true).
    { apply valid_date_of_ranges; try lia. rewrite days_in_february, El. lia. }
    rewrite (date_new_valid _ _ _ Hv29). simpl.
    destruct (date_ltb (mkdate (year today) 2 29) today) eqn:E; simpl; [|reflexivity].
    assert (Hy : year today <> 9999).
    { intros Hy. rewrite Hy in El. discriminate El. }
    rewrite date_new_bad_day; [reflexivity|lia|lia|lia|].
    rewrite days_in_february, (is_leap_next_year _ El). lia.
  - (* another year *)
    rewrite (@date_new_bad_day (year today) 2 29) by
      (try lia; rewrite days_in_february, El; lia).
    simpl.
    destruct ((day today =? 1) || (30 <=? day today)) eqn:Ed.
    + rewrite date_new_bad_day; [reflexivity|lia|lia|lia|].
      rewrite days_in_february, El.
      apply orb_true_iff in Ed. destruct Ed as [Ed|Ed];
        [apply Z.eqb_eq in Ed | apply Z.leb_le in Ed]; lia.
    + apply orb_false_iff in Ed. destruct Ed as [Ed1 Ed2].
      apply Z.eqb_neq in Ed1. apply Z.leb_gt in Ed2.
      assert (Hvd : valid_date (mkdate (year today) 2 (day today - 1)) = true).
      { apply valid_date_of_ranges; try lia. rewrite days_in_february, El. lia. }
      rewrite (date_new_valid _ _ _ Hvd). simpl.
      destruct (Z.eqb_spec (month today) 1) as [E1|E1].
      * assert (Hlt : date_ltb (mkdate (year today) 2 (day today - 1)) today = false).
        { apply date_ltb_false_iff. simpl. lia. }
        rewrite Hlt. simpl. unfold days_between, toordinal; simpl.
        rewrite E1. do 2 f_equal.
        assert (days_before_month (year today) 2 = 31) by reflexivity.
        assert (days_before_month (year today) 1 = 0) by reflexivity.
        lia.
      * assert (Hlt : date_ltb (mkdate (year today) 2 (day today - 1)) today = true).
        { apply date_ltb_iff. simpl. lia. }
        rewrite Hlt. simpl.
        destruct (Z.eqb_spec (year today) 9999) as [E9|E9].
        -- rewrite E9. change (9999 + 1) with 10000.
           rewrite date_new_year_10000 by lia. reflexivity.
        -- destruct (is_leap (year today + 1)) eqn:El1.
           ++ rewrite date_new_valid; [reflexivity|].
              apply valid_date_of_ranges; try lia.
              rewrite days_in_february, El1. lia.
           ++ rewrite date_new_bad_day; [reflexivity|lia|lia|lia|].
              rewrite days_in_february, El1. lia.
Qed.

(** The theorem at work: three days of 2024 and 2025 for a birthday on
    the 29th of February 2020. *)
Lemma days_to_birthday_on_Feb_29_witness :
  let r := set_birthday_field (Some (Field (mkdate 2020 2 29))) alexander in
  days_to_birthday (mkdate 2024 3 1) r
  = Raise (ValueError day_is_out_of_range_for_month)
  /\ days_to_birthday (mkdate 2025 1 10) r = Return (Some 30)
  /\ days_to_birthday (mkdate 2024 2 1) r = Return (Some 28).
Proof.
  cbv zeta. split; [|split].
  - rewrite (@days_to_birthday_on_Feb_29 (mkdate 2024 3 1) _ (Field (mkdate 2020 2 29)));
      try reflexivity. split; reflexivity.
  - rewrite (@days_to_birthday_on_Feb_29 (mkdate 2025 1 10) _ (Field (mkdate 2020 2 29)));
      try reflexivity. split; reflexivity.
  - rewrite (@days_to_birthday_on_Feb_29 (mkdate 2024 2 1) _ (Field (mkdate 2020 2 29)));
      try reflexivity. split; reflexivity.
Defined.

(** ** The mapping of the address book *)

Lemma keys_pop (k : str) (d : dict) :
  dict_wf d -> keys (pop k d) = remove (list_eq_dec N.eq_dec) k (keys d).
Proof.
  unfold dict_wf. induction d as [|[k' v'] rest IH]; simpl; intros Hd; [reflexivity|].
  inversion Hd as [|? ? Hk Hrest]; subst.
  destruct (list_eq_dec N.eq_dec k k') as [E|E].
  - subst k'. rewrite str_eqb_refl. symmetry. now apply notin_remove.
  - assert (E' : str_eqb k' k = false) by (apply str_eqb_neq; congruence).
    rewrite E'. simpl. now rewrite IH.
Qed.

Lemma getitem_None (k : str) (d : dict) :
  getitem k d = None <-> ~ In k (keys d).
Proof.
  induction d as [|[k' v'] rest IH]; simpl; [tauto|].
  destruct (str_eqb k' k) eqn:E.
  - apply str_eqb_eq in E. split; [discriminate|tauto].
  - apply str_eqb_neq in E. rewrite IH. tauto.
Qed.

Lemma getitem_pop_other (k n : str) (d : dict) :
  k <> n -> getitem k (pop n d) = getitem k d.
Proof.
  intros Hkn. induction d as [|[k' v'] rest IH]; simpl; [reflexivity|].
  destruct (str_eqb k' n) eqn:En.
  - apply str_eqb_eq in En. subst k'.
    assert (E : str_eqb n k = false) by (apply str_eqb_neq; congruence).
    now rewrite E.
  - simpl. now rewrite IH.
Qed.

Lemma dict_wf_pop (n : str) (d : dict) : dict_wf d -> dict_wf (pop n d).
Proof.
  intros Hd. unfold dict_wf. rewrite keys_pop by exact Hd.
  revert Hd. unfold dict_wf. generalize (keys d). intros l Hl.
  induction Hl as [|x l Hx Hl IH]; simpl; [constructor|].
  destruct (list_eq_dec N.eq_dec n x); [assumption|].
  constructor; [|assumption]. intros Hin. apply in_remove in Hin. tauto.
Qed.

Lemma pop_last (n : str) (v : _Record) (d : dict) :
  ~ In n (keys d) -> pop n (d ++ [(n, v)]) = d.
Proof.
  induction d as [|[k' v'] rest IH]; simpl; intros H.
  - now rewrite str_eqb_refl.
  - assert (E : str_eqb k' n = false) by (apply str_eqb_neq; tauto).
    rewrite E, IH by tauto. reflexivity.
Qed.

(** X14.  In a mapping with unique keys, [del_record(name)] raises the
    [KeyError] of a missing record when [name] is no key.  When it is
    one, the call returns and has taken that one entry out: [name] is no
    key any more, every other key is where it was in the order and has
    the record it had, and the keys are still unique. *)
Theorem del_record_spec :
  forall (n : str) (data : dict),
    dict_wf data ->
    (contains n data = false ->
       del_record n data = (Raise (KeyError (Record_does_not_exist n)), data))
    /\ (contains n data = true ->
          exists data',
            del_record n data = (Return tt, data')
            /\ keys data' = remove (list_eq_dec N.eq_dec) n (keys data)
            /\ getitem n data' = None
            /\ (forall k, k <> n -> getitem k data' = getitem k data)
            /\ dict_wf data').
Proof.
  intros n data Hwf. unfold del_record, bind, get, put, raise. split.
  - intros ->. reflexivity.
  - intros ->. exists (pop n data). split; [reflexivity|].
    split; [now apply keys_pop|]. split.
    + apply getitem_None. rewrite keys_pop by exact Hwf. apply remove_In.
    + split; [intros k Hk; now apply getitem_pop_other | now apply dict_wf_pop].
Qed.

(** The theorem at work on a book of one record. *)
Lemma del_record_spec_witness :
  del_record (lit "Alexander") [(lit "Alexander", alexander)] = (Return tt, [])
  /\ del_record (lit "Alex") [(lit "Alexander", alexander)]
     = (Raise (KeyError (Record_does_not_exist (lit "Alex"))),
        [(lit "Alexander", alexander)]).
Proof.
  assert (Hwf : dict_wf [(lit "Alexander", alexander)]).
  { repeat constructor. simpl. tauto. }
  split.
  - destruct (proj2 (@del_record_spec (lit "Alexander") _ Hwf) eq_refl)
      as (data' & H & _).
    rewrite H. f_equal. now injection H as <-.
  - exact (proj1 (@del_record_spec (lit "Alex") _ Hwf) eq_refl).
Defined.

(** X15.  A record that [add_record] has just made is taken away again
    by [del_record]: when [add_record(name)] returns, [del_record(name)]
    on the mapping it leaves returns too and gives back the mapping as
    it was. *)
Theorem add_then_del_record_restores :
  forall (n : str) (data data1 : dict),
    add_record n data = (Return tt, data1) ->
    del_record n data1 = (Return tt, data).
Proof.
  intros n data data1 Hadd.
  destruct (contains n data) eqn:Hc.
  - rewrite (add_record_present _ _ Hc) in Hadd. discriminate Hadd.
  - rewrite (add_record_fresh _ _ Hc) in Hadd.
    destruct (re_match name_value_pattern n); [|discriminate Hadd].
    injection Hadd as <-.
    assert (Hnot : ~ In n (keys data)) by now apply contains_false_keys.
    unfold del_record, bind, get, put, raise.
    assert (Hin : contains n (data ++ [(n, empty_record n)]) = true).
    { apply contains_keys. unfold keys. rewrite map_app, in_app_iff. right. now left. }
    rewrite Hin. now rewrite pop_last.
Qed.

(** The theorem at work on the empty book. *)
Lemma add_then_del_record_restores_witness :
  add_record (lit "Alexander") [] = (Return tt, [(lit "Alexander", alexander)])
  /\ del_record (lit "Alexander") [(lit "Alexander", alexander)] = (Return tt, []).
Proof.
  assert (H : add_record (lit "Alexander") []
              = (Return tt, [(lit "Alexander", alexander)])) by reflexivity.
  split; [exact H|]. exact (add_then_del_record_restores _ _ H).
Defined.

Lemma getitem_In (k : str) (r : _Record) (d : dict) :
  getitem k d = Some r -> In (k, r) d.
Proof.
  induction d as [|[k' v'] rest IH]; simpl; [discriminate|].
  destruct (str_eqb k' k) eqn:E.
  - apply str_eqb_eq in E. intros [= <-]. left. now rewrite E.
  - intros H. right. now apply IH.
Qed.

Lemma setitem_keys (k : str) (v : _Record) (d : dict) :
  In k (keys d) -> keys (setitem k v d) = keys d.
Proof.
  induction d as [|[k' v'] rest IH]; simpl; intros H; [contradiction|].
  destruct (str_eqb k' k) eqn:E; simpl; [reflexivity|].
  apply str_eqb_neq in E. rewrite IH; [reflexivity|]. tauto.
Qed.

Lemma setitem_entries (k : str) (v : _Record) (d : dict) (k' : str) (r' : _Record) :
  In (k', r') (setitem k v d) -> (k' = k /\ r' = v) \/ In (k', r') d.
Proof.
  induction d as [|[k0 v0] rest IH]; simpl.
  - intros [[= <- <-]|[]]. now left.
  - destruct (str_eqb k0 k) eqn:E; simpl.
    + apply str_eqb_eq in E. intros [[= <- <-]|H]; [left|right]; auto.
    + intros [H|H]; [right; now left|]. apply IH in H. tauto.
Qed.

Lemma pop_entries (n : str) (d : dict) (k' : str) (r' : _Record) :
  In (k', r') (pop n d) -> In (k', r') d.
Proof.
  induction d as [|[k0 v0] rest IH]; simpl; [tauto|].
  destruct (str_eqb k0 n); simpl; [tauto|]. intros [H|H]; [now left|right; auto].
Qed.

Section BookInvariant.
Context {I : Interp}.

Lemma empty_record_valid (n : str) :
  re_match name_value_pattern n = true -> fields_valid (empty_record n).
Proof. intros H. repeat split; simpl; auto; discriminate. Qed.

Lemma book_step_ok (d : dict) (c : book_call) :
  book_ok d -> book_ok (book_step d c).
Proof.
  intros [Hwf Hent]. destruct c as [n|n|n rc]; simpl.
  - unfold state_after. destruct (contains n d) eqn:Hc.
    + rewrite (add_record_present _ _ Hc). simpl. now split.
    + rewrite (add_record_fresh _ _ Hc).
      destruct (re_match name_value_pattern n) eqn:Hn; simpl; [|now split].
      assert (Hnot : ~ In n (keys d)) by now apply contains_false_keys.
      split; [now apply dict_wf_snoc|].
      intros k r Hin. apply in_app_iff in Hin. destruct Hin as [Hin|[[= <- <-]|[]]].
      * now apply Hent.
      * split; [reflexivity|now apply empty_record_valid].
  - unfold state_after, del_record, bind, get, put, raise.
    destruct (contains n d); simpl; [|now split].
    split; [now apply dict_wf_pop|].
    intros k r Hin. apply pop_entries in Hin. now apply Hent.
  - destruct (getitem n d) as [r|] eqn:Hg; [|now split].
    pose proof (getitem_In _ _ Hg) as Hin. destruct (Hent _ _ Hin) as [Hname Hv].
    destruct (call_keeps_valid rc Hv) as [Hv' Hn'].
    assert (Hk : In n (keys d)).
    { unfold keys. apply in_map_iff. now exists (n, r). }
    split.
    + unfold dict_wf. now rewrite setitem_keys.
    + intros k r' Hin'. apply setitem_entries in Hin'.
      destruct Hin' as [[-> ->]|Hin']; [|now apply Hent].
      split; [now rewrite Hn'|exact Hv'].
Qed.

End BookInvariant.

(** X16.  Whatever is called on an address book that starts empty
    ([add_record], [del_record], and any method of the record under a
    key), in whatever order and whether the calls return or raise, the
    keys of the mapping stay unique, every record sits under the key
    that is its own name, and every record holds only values its fields
    take. *)
Theorem address_book_stays_consistent :
  forall (I : Interp) (cs : list book_call),
    book_ok (book_calls cs []).
Proof.
  intros I cs.
  assert (H0 : book_ok []).
  { split; [constructor|]. intros k r []. }
  revert H0. generalize (@nil (str * _Record)). unfold book_calls.
  induction cs as [|c cs IH]; intros d Hd; simpl; [exact Hd|].
  apply IH. now apply book_step_ok.
Qed.

(** ** Loading into a book that has records *)

Lemma getitem_setitem (k k' : str) (v : _Record) (d : dict) :
  getitem k (setitem k' v d) = if str_eqb k' k then Some v else getitem k d.
Proof.
  induction d as [|[k0 v0] rest IH]; simpl; [reflexivity|].
  destruct (str_eqb k0 k') eqn:E0; simpl.
  - apply str_eqb_eq in E0. subst k0. now destruct (str_eqb k' k).
  - destruct (str_eqb k0 k) eqn:E1.
    + apply str_eqb_eq in E1. subst k0. now rewrite (proj2 (str_eqb_neq k' k))
        by (apply str_eqb_neq in E0; congruence).
    + exact IH.
Qed.

Lemma getitem_update (k : str) (other d : dict) :
  dict_wf other ->
  getitem k (update d other)
  = match getitem k other with
    | Some v => Some v
    | None => getitem k d
    end.
Proof.
  unfold update, dict_wf. revert d.
  induction other as [|[k0 v0] rest IH]; intros d Hwf; simpl; [reflexivity|].
  inversion Hwf as [|? ? Hk Hrest]; subst.
  rewrite IH by assumption. rewrite getitem_setitem.
  destruct (str_eqb k0 k) eqn:E.
  - apply str_eqb_eq in E. subst k0.
    now rewrite (proj2 (getitem_None k rest) Hk).
  - reflexivity.
Qed.

Lemma contains_setitem_present (k k' : str) (v : _Record) (d : dict) :
  In k' (keys d) -> contains k (setitem k' v d) = contains k d.
Proof.
  intros H. destruct (contains k d) eqn:E.
  - apply contains_keys. rewrite setitem_keys by assumption. now apply contains_keys.
  - apply contains_false_keys. rewrite setitem_keys by assumption.
    now apply contains_false_keys.
Qed.

Lemma keys_update (other d : dict) :
  dict_wf other -> keys (update d other) = keys d ++ new_keys d other.
Proof.
  unfold update, dict_wf, new_keys. revert d.
  induction other as [|[k0 v0] rest IH]; intros d Hwf; simpl.
  - now rewrite app_nil_r.
  - inversion Hwf as [|? ? Hk Hrest]; subst. rewrite IH by assumption.
    destruct (contains k0 d) eqn:Hc; simpl.
    + apply contains_keys in Hc. rewrite setitem_keys by assumption. f_equal.
      apply filter_ext. intros k. now rewrite contains_setitem_present.
    + apply contains_false_keys in Hc. rewrite setitem_absent by assumption.
      unfold keys at 1. rewrite map_app. simpl. rewrite <- app_assoc. simpl.
      do 2 f_equal. apply filter_ext_in. intros k Hin.
      unfold contains. rewrite existsb_app. simpl.
      assert (E : str_eqb k0 k = false) by (apply str_eqb_neq; intros ->; contradiction).
      rewrite E. now rewrite !orb_false_r.
Qed.

Lemma dict_wf_setitem (k : str) (v : _Record) (d : dict) :
  dict_wf d -> dict_wf (setitem k v d).
Proof.
  intros Hwf. destruct (in_dec (list_eq_dec N.eq_dec) k (keys d)) as [Hin|Hout].
  - unfold dict_wf. now rewrite setitem_keys.
  - rewrite setitem_absent by assumption. now apply dict_wf_snoc.
Qed.

Lemma dict_wf_update (other d : dict) : dict_wf d -> dict_wf (update d other).
Proof.
  unfold update. revert d. induction other as [|[k0 v0] rest IH]; intros d Hwf; simpl.
  - exact Hwf.
  - apply IH. now apply dict_wf_setitem.
Qed.

(** X17.  [read_records_from_file] merges the mapping of the file into
    the book.  After a load that returns, a key of the file has the
    record of the file, and any other key has the record it had; the
    keys the book had keep their places, the keys that are new come
    after them in the order of the file, and the keys are still
    unique. *)
Theorem read_records_merges :
  forall (blob : Type) (loads : blob -> outcome dict)
         (filename : str) (w : world blob) (b : blob) (content data : dict),
    files w filename = Some b ->
    loads b = Return content ->
    dict_wf content ->
    dict_wf data ->
    exists data',
      read_records_from_file loads filename w data = (Return tt, data')
      /\ (forall k, getitem k data'
                    = match getitem k content with
                      | Some v => Some v
                      | None => getitem k data
                      end)
      /\ keys data' = keys data ++ new_keys data content
      /\ dict_wf data'.
Proof.
  intros blob loads filename w b content data Hfile Hload Hc Hd.
  exists (update data content). unfold read_records_from_file.
  rewrite Hfile, Hload. split; [reflexivity|].
  split; [intros k; now apply getitem_update|].
  split; [now apply keys_update | now apply dict_wf_update].
Qed.

(** The theorem at work: a file with a record of Alexander that has a
    birthday and a record Alex, loaded into a book with Alexander
    alone. *)
Lemma read_records_merges_witness :
  let content := [(lit "Alex", empty_record (lit "Alex"));
                  (lit "Alexander", alexander_born)] in
  let w := {| files := fun _ => Some content; writable := fun _ => true |} in
  read_records_from_file (@Return dict) (lit "book.bin") w
    [(lit "Alexander", alexander)]
  = (Return tt, [(lit "Alexander", alexander_born);
                 (lit "Alex", empty_record (lit "Alex"))]).
Proof.
  cbv zeta.
  destruct (@read_records_merges dict (@Return dict) (lit "book.bin")
              {| files := fun _ => Some [(lit "Alex", empty_record (lit "Alex"));
                                         (lit "Alexander", alexander_born)];
                 writable := fun _ => true |}
              _ _ [(lit "Alexander", alexander)] eq_refl eq_refl)
    as (data' & H & _).
  - repeat constructor; simpl; [intros [H|[]]; discriminate H | tauto].
  - repeat constructor. simpl. tauto.
  - rewrite H. f_equal. now injection H as <-.
Defined.

(** ** Searching *)

Section Search.
Context {I : Interp}.

Lemma search_fold_filter (query : str) (records : list _Record) (results : list str) :
  fold_left
    (fun results record =>
       if search_hit query record
       then results ++ [formatted_record record]
       else results)
    records results
  = results ++ map formatted_record (filter (search_hit query) records).
Proof.
  revert results. induction records as [|r rest IH]; intros results; simpl.
  - now rewrite app_nil_r.
  - rewrite IH. destruct (search_hit query r); simpl; [|reflexivity].
    now rewrite <- app_assoc.
Qed.

Lemma search_filter (query : str) (data : dict) :
  search query data
  = map formatted_record (filter (search_hit query) (values data)).
Proof. unfold search. now rewrite search_fold_filter. Qed.

Lemma ascii_lower_same (c c' : char) :
  ascii_lower c = ascii_lower c' ->
  c = c' \/ (ascii_alpha c = true /\ ascii_alpha c' = true).
Proof.
  unfold ascii_lower, ascii_alpha, in_range.
  destruct (N.leb_spec 65 c), (N.leb_spec c 90), (N.leb_spec 65 c'),
    (N.leb_spec c' 90), (N.leb_spec 97 c), (N.leb_spec c 122),
    (N.leb_spec 97 c'), (N.leb_spec c' 122); simpl; intros Heq;
    try (left; lia); try (right; split; reflexivity); lia.
Qed.

Lemma lower_same_letters (q q' : str) :
  map ascii_lower q = map ascii_lower q' ->
  q = q' \/ (existsb ascii_alpha q = true /\ existsb ascii_alpha q' = true).
Proof.
  revert q'. induction q as [|c q IH]; intros [|c' q']; simpl; try discriminate.
  - now left.
  - intros [= Hc Hq]. destruct (ascii_lower_same _ _ Hc) as [->|[-> ->]].
    + destruct (IH _ Hq) as [->|[-> ->]]; [now left|right].
      now rewrite !orb_true_r.
    + right. auto.
Qed.

Lemma starts_with_chars (a b : str) (c : char) :
  starts_with a b = true -> In c a -> In c b.
Proof.
  revert b. induction a as [|x a IH]; intros b H Hin; [destruct Hin|].
  destruct b as [|y b]; simpl in H; [discriminate|].
  apply andb_true_iff in H. destruct H as [Hxy H]. apply N.eqb_eq in Hxy. subst y.
  destruct Hin as [->|Hin]; [now left|right; now apply IH].
Qed.

Lemma str_in_chars (a b : str) (c : char) :
  str_in a b = true -> In c a -> In c b.
Proof.
  induction b as [|y b IH]; intros H Hin; simpl in H.
  - rewrite orb_false_r in H. exact (starts_with_chars a [] c H Hin).
  - apply orb_true_iff in H. destruct H as [H|H].
    + exact (starts_with_chars a (y :: b) c H Hin).
    + right. now apply IH.
Qed.

Lemma digit_is_no_letter (c : char) : is_digit c = true -> ascii_alpha c = false.
Proof.
  unfold is_digit, decimal_value, ascii_alpha, in_range.
  destruct (N.ltb_spec c 128).
  - destruct (N.leb_spec 48 c), (N.leb_spec c 57), (N.leb_spec 65 c),
      (N.leb_spec c 90), (N.leb_spec 97 c), (N.leb_spec c 122); simpl;
      intros; try reflexivity; try discriminate; lia.
  - intros _.
    destruct (N.leb_spec 65 c), (N.leb_spec c 90), (N.leb_spec 97 c),
      (N.leb_spec c 122); simpl; try reflexivity; lia.
Qed.

Lemma separator_is_no_letter (c : char) :
  space_or_dash c = true -> ascii_alpha c = false.
Proof.
  unfold space_or_dash, is_space, ascii_alpha, in_range.
  destruct (N.eqb_spec c 45) as [->|Hc]; [reflexivity|]. rewrite orb_false_r.
  destruct (N.ltb_spec c 128).
  - destruct (N.leb_spec 9 c), (N.leb_spec c 13), (N.leb_spec 28 c),
      (N.leb_spec c 32), (N.leb_spec 65 c),
      (N.leb_spec c 90), (N.leb_spec 97 c), (N.leb_spec c 122); simpl;
      intros; try reflexivity; try discriminate; lia.
  - intros _.
    destruct (N.leb_spec 65 c), (N.leb_spec c 90), (N.leb_spec 97 c),
      (N.leb_spec c 122); simpl; try reflexivity; lia.
Qed.

Lemma phone_has_no_letter (v : str) (c : char) :
  re_match phone_pattern v = true -> In c v -> ascii_alpha c = false.
Proof.
  intros Hv Hin. apply phone_pattern_matches in Hv.
  assert (Htail : forall tail, line_end tail -> In c tail -> ascii_alpha c = false).
  { intros tail [->| ->]; [intros []|intros [<-|[]]; reflexivity]. }
  destruct Hv as [(gs & d & tail & -> & _ & Hgs & Hd & He)
                 | (ds & tail & -> & _ & Hds & He)].
  - destruct Hin as [<-|Hin]; [reflexivity|].
    apply in_app_iff in Hin. destruct Hin as [Hin|[<-|Hin]].
    + apply in_concat in Hin. destruct Hin as (g & Hg & Hc).
      rewrite Forall_forall in Hgs. destruct (Hgs _ Hg) as (d' & Hd' & Hshape).
      destruct Hshape as [->|(sep & Hsep & ->)].
      * destruct Hc as [<-|[]]. now apply digit_is_no_letter.
      * destruct Hc as [<-|[<-|[]]];
          [now apply digit_is_no_letter|now apply separator_is_no_letter].
    + now apply digit_is_no_letter.
    + now apply (Htail tail).
  - apply in_app_iff in Hin. destruct Hin as [Hin|Hin].
    + rewrite Forall_forall in Hds. apply digit_is_no_letter. now apply Hds.
    + now apply (Htail tail).
Qed.

Lemma letters_in_no_phone (q : str) (ps : list _Phone) :
  existsb ascii_alpha q = true ->
  Forall (fun p => re_match phone_pattern (value p) = true) ps ->
  existsb (fun p => str_in q (value p)) ps = false.
Proof.
  intros Hq Hps. apply existsb_exists in Hq. destruct Hq as (c & Hc & Halpha).
  induction Hps as [|p rest Hp _ IH]; simpl; [reflexivity|].
  rewrite IH, orb_false_r. destruct (str_in q (value p)) eqn:E; [|reflexivity].
  pose proof (phone_has_no_letter _ c Hp (str_in_chars _ _ c E Hc)). congruence.
Qed.

Lemma search_hit_ignores_case (q q' : str) (r : _Record) :
  is_ascii q = true -> is_ascii q' = true ->
  lower q = lower q' ->
  Forall (fun p => re_match phone_pattern (value p) = true) (phones r) ->
  search_hit q r = search_hit q' r.
Proof.
  intros Ha Ha' Hl Hps. unfold search_hit. rewrite Hl.
  assert (Hp : existsb (fun p => str_in q (value p)) (phones r)
               = existsb (fun p => str_in q' (value p)) (phones r)).
  { revert Hl. unfold lower. unfold is_ascii in Ha, Ha'. rewrite Ha, Ha'. intros Hl.
    destruct (lower_same_letters _ _ Hl) as [->|[H1 H2]]; [reflexivity|].
    now rewrite !letters_in_no_phone. }
  now rewrite Hp.
Qed.

End Search.

Lemma starts_with_iff (a b : str) :
  starts_with a b = true <-> exists after, b = a ++ after.
Proof.
  revert b. induction a as [|x a IH]; intros b; simpl.
  - split; [intros _; now exists b | reflexivity].
  - destruct b as [|y b].
    + split; [discriminate | intros [after H]; discriminate H].
    + rewrite andb_true_iff, N.eqb_eq, IH. split.
      * intros [-> [after ->]]. now exists after.
      * intros [after [= -> ->]]. split; [reflexivity|now exists after].
Qed.

Lemma str_in_occurs (a b : str) : str_in a b = true <-> occurs a b.
Proof.
  unfold occurs. induction b as [|y b IH]; simpl.
  - rewrite orb_false_r, starts_with_iff. split.
    + intros [after H]. now exists [], after.
    + intros [before [after H]]. destruct before; [now exists after|discriminate H].
  - rewrite orb_true_iff, starts_with_iff, IH. split.
    + intros [[after H]|[before [after H]]].
      * now exists [], after.
      * exists (y :: before), after. simpl. now rewrite H.
    + intros [[|x before] [after H]].
      * left. now exists after.
      * right. injection H as _ H. now exists before, after.
Qed.

Lemma search_hit_described {I : Interp} (query : str) (r : _Record) :
  search_hit query r = true <-> hit_described query r.
Proof.
  unfold search_hit, hit_described.
  rewrite !orb_true_iff, str_in_occurs, existsb_exists.
  assert (Hp : (exists p, In p (phones r) /\ str_in query (value p) = true)
               <-> (exists p, In p (phones r) /\ occurs query (value p))).
  { split; intros [p [Hin H]]; exists p; (split; [exact Hin|]);
      now apply str_in_occurs. }
  assert (Hb : match birthday r with
               | Some b => str_in (lower query) (_Birthday_str b)
               | None => false
               end = true
               <-> (exists b, birthday r = Some b
                              /\ occurs (lower query) (dd_mm_yyyy (value b)))).
  { destruct (birthday r) as [b|].
    - rewrite str_in_occurs, _Birthday_str_dd_mm_yyyy. split.
      + intros H. now exists b.
      + intros [b' [[= <-] H]]. exact H.
    - split; [discriminate|intros [b' [H _]]; discriminate H]. }
  assert (He : match email r with
               | Some e => str_in (lower query) (lower (value e))
               | None => false
               end = true
               <-> (exists e, email r = Some e
                              /\ occurs (lower query) (lower (value e)))).
  { destruct (email r) as [e|].
    - rewrite str_in_occurs. split.
      + intros H. now exists e.
      + intros [e' [[= <-] H]]. exact H.
    - split; [discriminate|intros [e' [H _]]; discriminate H]. }
  rewrite Hp, Hb, He. tauto.
Qed.

(** X18.  [search(query)] returns the blocks of exactly the records that
    meet its condition, once each and in the order of the mapping.  The
    condition: the lower-case query occurs in the lower-case name, or the
    query as given occurs in one of the phones, or the lower-case query
    occurs in the birthday written [DD-MM-YYYY] or in the lower-case
    email.  The block of a record is the line feed and the four labelled
    lines of the record. *)
Theorem search_returns_the_hits :
  forall (I : Interp) (query : str) (data : dict),
    exists keep : _Record -> bool,
      (forall r, keep r = true <-> hit_described query r)
      /\ search query data = map block_as_described (filter keep (values data)).
Proof.
  intros I query data. exists (search_hit query). split.
  - intros r. apply search_hit_described.
  - unfold search. rewrite search_fold_filter. simpl.
    apply map_ext. intros r. apply formatted_record_block.
Qed.

(** X19.  On a book that is consistent (as every book built by the
    methods is), the letter case of an ASCII query makes no difference:
    two ASCII queries with the same lower-case form give the same
    result.  The test on phones takes the query as given, but a query
    with a letter is in no stored phone. *)
Theorem search_ignores_case :
  forall (I : Interp) (q q' : str) (data : dict),
    book_ok data ->
    is_ascii q = true -> is_ascii q' = true ->
    lower q = lower q' ->
    search q data = search q' data.
Proof.
  intros I q q' data [_ Hent] Ha Ha' Hl. rewrite !search_filter. f_equal.
  apply filter_ext_in. intros r Hr. unfold values in Hr.
  apply in_map_iff in Hr. destruct Hr as [[k r'] [<- Hin]]. simpl.
  destruct (Hent _ _ Hin) as [_ (_ & Hps & _)].
  now apply search_hit_ignores_case.
Qed.

(** The theorem at work: [ALEX] and [alex] on a book with Alexander. *)
Lemma search_ignores_case_witness :
  search (lit "ALEX") [(lit "Alexander", alexander_born)]
  = search (lit "alex") [(lit "Alexander", alexander_born)]
  /\ List.length (search (lit "ALEX") [(lit "Alexander", alexander_born)]) = 1%nat.
Proof.
  split; [|reflexivity].
  apply (@search_ignores_case ascii_interp).
  - split.
    + repeat constructor. simpl. tauto.
    + intros k r [[= <- <-]|[]]. split; [reflexivity|].
      split; [reflexivity|]. split; [constructor|].
      split; [intros e He; discriminate He|].
      intros b [= <-]. reflexivity.
  - reflexivity.
  - reflexivity.
  - reflexivity.
Defined.

(** ** The script of the file *)

Example script_first_show :
  show_records (book_calls script_before_show [])
  = [lit "Alexander | abcdef@gmail.com | 111111111 111111113 | 30-09-2022"].
Proof. reflexivity. Qed.

Example script_second_show :
  show_records (book_calls script_after_show (book_calls script_before_show []))
  = [].
Proof. reflexivity. Qed.

(** ** Phones in the order they were added *)

(** X20.  Phones are kept in the order in which they were added: after
    [add_phone] of a series of well-formed phones, all different from
    each other and from the phones already stored, the record holds the
    phones it had followed by the new ones in the order of the calls. *)
Theorem add_phone_keeps_order :
  forall (I : Interp) (new_phones : list str) (r : _Record),
    Forall (fun p => re_match phone_pattern p = true) new_phones ->
    NoDup new_phones ->
    (forall p, In p new_phones -> ~ In p (map (@value _) (phones r))) ->
    map (@value _) (phones (calls (map Add_phone new_phones) r))
    = map (@value _) (phones r) ++ new_phones.
Proof.
  intros I new_phones. unfold calls.
  induction new_phones as [|p ps IH]; intros r Hok Hnd Hnew; simpl.
  - now rewrite app_nil_r.
  - inversion Hok as [|? ? Hp Hps]; subst.
    inversion Hnd as [|? ? Hpps Hndps]; subst.
    assert (Hadd : add_phone p r = (Return tt, set_phones (phones r ++ [Field p]) r)).
    { apply add_phone_returns. split; [exact Hp|]. split; [|reflexivity].
      apply Hnew. now left. }
    unfold state_after at 2. rewrite Hadd. simpl.
    rewrite IH; simpl.
    + rewrite map_app. simpl. now rewrite <- app_assoc.
    + exact Hps.
    + exact Hndps.
    + intros q Hq. rewrite map_app, in_app_iff. simpl.
      intros [H|[H|[]]].
      * apply (Hnew q); [now right|exact H].
      * subst q. contradiction.
Qed.

(** The theorem at work: two phones added to a record that holds the
    same phone twice. *)
Lemma add_phone_keeps_order_witness :
  let r := set_phones [Field (lit "111111112"); Field (lit "111111112")] alexander in
  map (@value _)
    (phones (calls (map Add_phone [lit "111111111"; lit "111111113"]) r))
  = [lit "111111112"; lit "111111112"; lit "111111111"; lit "111111113"].
Proof.
  cbv zeta.
  apply (@add_phone_keeps_order ascii_interp [lit "111111111"; lit "111111113"]
           (set_phones [Field (lit "111111112"); Field (lit "111111112")] alexander)).
  - repeat constructor.
  - repeat constructor; simpl.
    + intros [H|[]]; discriminate H.
    + tauto.
  - simpl. intros p [<-|[<-|[]]] [H|[H|[]]]; discriminate H.
Defined.

(** ** Saving a book and loading it back into itself *)

Lemma setitem_same (k : str) (v : _Record) (d : dict) :
  dict_wf d -> In (k, v) d -> setitem k v d = d.
Proof.
  unfold dict_wf. induction d as [|[k0 v0] rest IH]; simpl; intros Hwf Hin;
    [contradiction|].
  inversion Hwf as [|? ? Hk Hrest]; subst.
  destruct (str_eqb k0 k) eqn:E.
  - apply str_eqb_eq in E. subst k0. destruct Hin as [[= <-]|Hin]; [reflexivity|].
    exfalso. apply Hk. unfold keys. apply in_map_iff. now exists (k, v).
  - apply str_eqb_neq in E. destruct Hin as [[= -> _]|Hin]; [contradiction|].
    now rewrite IH.
Qed.

Lemma update_subset (other d : dict) :
  dict_wf d -> (forall kv, In kv other -> In kv d) -> update d other = d.
Proof.
  intros Hwf. unfold update. induction other as [|[k v] rest IH]; intros Hsub; simpl.
  - reflexivity.
  - rewrite setitem_same; [|exact Hwf|apply Hsub; now left].
    apply IH. intros kv Hin. apply Hsub. now right.
Qed.

(** X21.  Saving a book and loading the file back into the same book
    changes nothing: with a codec that gives back what it was given, a
    [save_records_to_file] that returns followed by
    [read_records_from_file] of the same path leaves the mapping of the
    book as it is, every key in its place with its record. *)
Theorem save_then_read_into_the_same_book :
  forall (blob : Type) (dumps : dict -> blob) (loads : blob -> outcome dict),
    (forall d, loads (dumps d) = Return d) ->
    forall (filename : str) (data : dict) (w : world blob),
      dict_wf data ->
      result_of (save_records_to_file dumps filename data) w = Return tt ->
      read_records_from_file loads filename
        (state_after (save_records_to_file dumps filename data) w) data
      = (Return tt, data).
Proof.
  intros blob dumps loads Hcodec filename data w Hwf Hsave.
  unfold read_records_from_file.
  rewrite (save_writes dumps filename data w Hsave).
  rewrite Hcodec.
  rewrite update_subset; [reflexivity|exact Hwf|auto].
Qed.

(** The theorem at work on the book of Alexander. *)
Lemma save_then_read_into_the_same_book_witness :
  let data := [(lit "Alexander", alexander_born)] in
  let w := {| files := fun _ => @None dict; writable := fun _ => true |} in
  read_records_from_file (@Return dict) (lit "book.bin")
    (state_after (save_records_to_file (fun d => d) (lit "book.bin") data) w) data
  = (Return tt, data).
Proof.
  cbv zeta.
  apply (@save_then_read_into_the_same_book dict (fun d => d) (@Return dict)).
  - reflexivity.
  - repeat constructor. simpl. tauto.
  - reflexivity.
Defined.

(** ** [int] and the block of a record on examples *)

Example int_file_separator :
  int (28%N :: lit "30") = Raise (ValueError (invalid_literal_for_int (28%N :: lit "30"))).
Proof. reflexivity. Qed.

Example int_vertical_tab : int (11%N :: lit "7" ++ [12%N]) = Return 7.
Proof. reflexivity. Qed.

Example int_underscore : int (lit "1_0") = Return 10.
Proof. reflexivity. Qed.

Example int_two_underscores :
  int (lit "1__0") = Raise (ValueError (invalid_literal_for_int (lit "1__0"))).
Proof. reflexivity. Qed.

Example int_leading_underscore :
  int (lit "+_1") = Raise (ValueError (invalid_literal_for_int (lit "+_1"))).
Proof. reflexivity. Qed.

Example int_space_inside :
  int (lit "1 2") = Raise (ValueError (invalid_literal_for_int (lit "1 2"))).
Proof. reflexivity. Qed.

Example int_minus : int (lit " -7 ") = Return (-7).
Proof. reflexivity. Qed.

Example int_4300_digits : returns_a_number (int (repeat 57%N 4300)) = true.
Proof. vm_compute. reflexivity. Qed.

Example int_4301_digits :
  int (repeat 57%N 4301 ++ lit " x")
  = Raise (ValueError (exceeds_the_limit_for_integer_string 4301)).
Proof. vm_compute. reflexivity. Qed.

Example birthday_with_file_separator :
  _Birthday_new a_day (28%N :: lit "30-09-2022")
  = Raise (ValueError (invalid_literal_for_int (28%N :: lit "30"))).
Proof. reflexivity. Qed.

Example block_of_alexander :
  block_as_described
    (set_phones [Field (lit "111111111"); Field (lit "111111113")] alexander_born)
  = 10%N :: lit " Name: Alexander" ++ 10%N
    :: lit " Phones: 111111111, 111111113" ++ 10%N
    :: lit " Birthday: 30-09-2022" ++ 10%N
    :: lit " Email: No records" ++ [10%N].
Proof. reflexivity. Qed.
